(** * Phaser system core: device readiness registry and frame scheduler

    A shallow embedding of two parts of [src/lib/phaser/system.js]:

    - [Phaser.Device]: the singleton that queues [whenReady] subscribers,
      arms one host readiness listener, runs the capability probes once and
      answers [canPlayAudio] / [canPlayVideo];
    - [Phaser.RequestAnimationFrame]: the frame scheduler that drives
      [game.update] through [requestAnimationFrame] or [setTimeout].

    JavaScript objects that are used as property bags (the media flags of
    the device, the function-valued properties of [window]) are finite maps
    and sets; calls into the host (timers, listeners, subscriber callbacks)
    are recorded as events, in the order in which the code issues them.

    Code of the owner is treated in two ways.  Subscriber callbacks and
    [onInitialized] handlers of the device are opaque: calling one is an
    event, and what it does in turn is a later call of the run.  The
    scheduler's driver [game.update] is a function on the whole world, so
    that it can call back into the scheduler while it runs. *)

From Stdlib Require Import ZArith QArith Qround Lia.
From stdpp Require Import base option list strings gmap.

Local Open Scope Z_scope.

(** The double-quote character, for MIME strings such as
    [audio/ogg; codecs=<q>vorbis<q>]. *)
Definition dq : string := String (Ascii.ascii_of_nat 34) EmptyString.

(** [codec mime c] is the string [mime; codecs=<q>c<q>]. *)
Definition codec (mime c : string) : string :=
  mime +:+ "; codecs=" +:+ dq +:+ c +:+ dq.

(* ===================================================================== *)
(** ** Phaser.Device *)
(* ===================================================================== *)

Module Device.

(** Subscriber callbacks are host code: the registry only stores and
    calls them, so a callback is an opaque identifier. *)
Definition Callback := nat.

(** Object references that the registry passes around: the [context] of a
    subscription (any host object, or [undefined]) and the device itself. *)
Inductive Ref : Type :=
| RefUndefined
| RefDevice
| RefObject (n : nat).

Inductive Target : Type := Document | Window.

(** What the registry does to its host, in program order.  Every timer
    and listener is registered with [readyCheck._monitor]. *)
Inductive Event : Type :=
| SetTimeout (delay : Z)
| AddEventListener (t : Target) (name : string)
| RemoveEventListener (t : Target) (name : string)
| Probes
| Dispatch
| Call (cb : Callback) (ctx : Ref) (arg : Ref).

(** The host as seen by one call. [canPlayType] is [None] when the media
    element has no such method; applied to a MIME type it is [None] when
    the host answers with a non-string (on which [.replace] throws). *)
Record Host : Type := {
  readyState : string;
  cordova : bool;
  cocoonJS : bool;
  body : bool;
  now : Z;
  audio_canPlayType : option (string -> option string);
  video_canPlayType : option (string -> option string)
}.

(** The device object.  [flags] holds the media capability properties
    ([this.ogg], [this.mp4Video], ...); [p_readyCheck], [p_initialize]
    and [p_onInitialized] tell whether the property of that name still
    refers to its function or signal ([true]) or has been set to [null]. *)
Record Device : Type := {
  deviceReadyAt : Z;
  initialized : bool;
  flags : gmap string bool;
  p_readyCheck : bool;
  p_initialize : bool;
  p_onInitialized : bool
}.

(** The function object [Phaser.Device._readyCheck] with the two
    properties the code hangs on it.  It outlives [this._readyCheck =
    null], because the bound [_monitor] handed to the host refers to it. *)
Record ReadyCheckFn : Type := {
  _monitor : bool;
  _queue : option (list (Callback * Ref))
}.

Record State : Type := {
  dev : Device;
  fn : ReadyCheckFn
}.

(** Result of one call: the state it leaves, the host calls it made and
    whether it ended in a [TypeError]. *)
Record Outcome : Type := {
  next : State;
  emitted : list Event;
  threw : bool
}.

Definition returns (s : State) (evs : list Event) : Outcome :=
  {| next := s; emitted := evs; threw := false |}.

Definition throw (s : State) (evs : list Event) : Outcome :=
  {| next := s; emitted := evs; threw := true |}.

(** *** Constructor *)

Definition media_flags : list string :=
  ["ogg"; "opus"; "mp3"; "wav"; "m4a"; "webm";
   "oggVideo"; "h264Video"; "mp4Video"; "webmVideo"; "vp9Video"; "hlsVideo"].

Definition new_Device : Device :=
  {| deviceReadyAt := 0;
     initialized := false;
     flags := list_to_map ((fun k => (k, false)) <$> media_flags);
     p_readyCheck := true;
     p_initialize := true;
     p_onInitialized := true |}.

Definition init : State :=
  {| dev := new_Device;
     fn := {| _monitor := false; _queue := None |} |}.

(** *** Property reads and writes *)

(** Truthiness of a number. *)
Definition truthy (z : Z) : bool := negb (z =? 0).

(** [this.<k>] read as a condition; a missing property is falsy. *)
Definition flag (d : Device) (k : string) : bool :=
  default false (flags d !! k).

Definition set_flag (k : string) (d : Device) : Device :=
  {| deviceReadyAt := deviceReadyAt d;
     initialized := initialized d;
     flags := <[k := true]> (flags d);
     p_readyCheck := p_readyCheck d;
     p_initialize := p_initialize d;
     p_onInitialized := p_onInitialized d |}.

Definition set_deviceReadyAt (t : Z) (d : Device) : Device :=
  {| deviceReadyAt := t;
     initialized := initialized d;
     flags := flags d;
     p_readyCheck := p_readyCheck d;
     p_initialize := p_initialize d;
     p_onInitialized := p_onInitialized d |}.

Definition set_initialized (d : Device) : Device :=
  {| deviceReadyAt := deviceReadyAt d;
     initialized := true;
     flags := flags d;
     p_readyCheck := p_readyCheck d;
     p_initialize := p_initialize d;
     p_onInitialized := p_onInitialized d |}.

(** [this._readyCheck = null; this._initialize = null;
    this.onInitialized = null]. *)
Definition release (d : Device) : Device :=
  {| deviceReadyAt := deviceReadyAt d;
     initialized := initialized d;
     flags := flags d;
     p_readyCheck := false;
     p_initialize := false;
     p_onInitialized := false |}.

(** [readyCheck._queue = readyCheck._queue || []; readyCheck._queue.push([callback, context])]. *)
Definition push (cb : Callback) (ctx : Ref) (f : ReadyCheckFn) : ReadyCheckFn :=
  {| _monitor := _monitor f;
     _queue := Some (default [] (_queue f) ++ [(cb, ctx)]) |}.

(** [readyCheck._monitor = readyCheck.bind(this)]. *)
Definition bind_monitor (f : ReadyCheckFn) : ReadyCheckFn :=
  {| _monitor := true; _queue := _queue f |}.

(** [unchanged d d']: every property but the media flags is the same. *)
Definition unchanged (d d' : Device) : Prop :=
  deviceReadyAt d' = deviceReadyAt d /\ initialized d' = initialized d /\
  p_readyCheck d' = p_readyCheck d /\ p_initialize d' = p_initialize d /\
  p_onInitialized d' = p_onInitialized d.

(** *** Capability probes: [_checkAudio] and [_checkVideo]

    The other probes of [_initialize], and the two assignments to
    [audioData] and [webAudio] that open [_checkAudio], write properties
    that none of the operations below read; they are left out. *)

(** The condition [el.canPlayType(mime).replace(/^no$/, '')]: [None] when
    [.replace] is called on a non-string and throws. *)
Definition cleaned (ct : string -> option string) (mime : string) : option bool :=
  s ← ct mime;
  Some (negb (String.eqb (if String.eqb s "no" then "" else s) "")).

(** The condition [el.canPlayType(mime)] without [.replace]. *)
Definition raw (ct : string -> option string) (mime : string) : bool :=
  match ct mime with
  | Some s => negb (String.eqb s "")
  | None => false
  end.

(** The body of a [try { if (c1) {...} if (c2) {...} ... } catch (e) {}]
    block: each step is a condition and the flags set when it holds; a
    condition that throws ends the block, keeping the flags set so far. *)
Fixpoint try_block (steps : list (option bool * list string)) (d : Device) : Device :=
  match steps with
  | [] => d
  | (None, _) :: _ => d
  | (Some c, ks) :: rest =>
      try_block rest (if c then foldl (fun acc k => set_flag k acc) d ks else d)
  end.

Definition _checkVideo (h : Host) (d : Device) : Device :=
  match video_canPlayType h with
  | None => d
  | Some ct =>
      try_block
        [ (cleaned ct (codec "video/ogg" "theora"), ["oggVideo"]);
          (cleaned ct (codec "video/mp4" "avc1.42E01E"), ["h264Video"; "mp4Video"]);
          (cleaned ct (codec "video/webm" "vp8, vorbis"), ["webmVideo"]);
          (cleaned ct (codec "video/webm" "vp9"), ["vp9Video"]);
          (cleaned ct (codec "application/x-mpegURL" "avc1.42E01E"), ["hlsVideo"]) ]
        d
  end.

Definition _checkAudio (h : Host) (d : Device) : Device :=
  match audio_canPlayType h with
  | None => d
  | Some ct =>
      try_block
        [ (cleaned ct (codec "audio/ogg" "vorbis"), ["ogg"]);
          (match cleaned ct (codec "audio/ogg" "opus") with
           | Some false => cleaned ct "audio/opus;"
           | c => c
           end, ["opus"]);
          (cleaned ct "audio/mpeg;", ["mp3"]);
          (cleaned ct (codec "audio/wav" "1"), ["wav"]);
          (if raw ct "audio/x-m4a;" then Some true else cleaned ct "audio/aac;", ["m4a"]);
          (cleaned ct (codec "audio/webm" "vorbis"), ["webm"]) ]
        d
  end.

Definition _initialize (h : Host) (d : Device) : Device :=
  _checkVideo h (_checkAudio h d).

(** *** whenReady *)

Definition whenReady (cb : Callback) (ctx : Ref) (nonPrimer : bool)
    (h : Host) (s : State) : Outcome :=
  if truthy (deviceReadyAt (dev s)) || negb (p_readyCheck (dev s)) then
    returns s [Call cb ctx RefDevice]
  else if _monitor (fn s) || nonPrimer then
    returns {| dev := dev s; fn := push cb ctx (fn s) |} []
  else
    let s' := {| dev := dev s; fn := push cb ctx (bind_monitor (fn s)) |} in
    if String.eqb (readyState h) "complete" || String.eqb (readyState h) "interactive" then
      returns s' [SetTimeout 0]
    else if cordova h && negb (cocoonJS h) then
      returns s' [AddEventListener Document "deviceready"]
    else
      returns s' [AddEventListener Document "DOMContentLoaded";
                  AddEventListener Window "load"].

(** *** _readyCheck *)

(** [while ((item = readyCheck._queue.shift())) { callback.call(context, this); }]:
    the calls made and the queue that is left. *)
Fixpoint drain (q : list (Callback * Ref)) : list Event * list (Callback * Ref) :=
  match q with
  | [] => ([], [])
  | (cb, ctx) :: rest =>
      let '(evs, q') := drain rest in (Call cb ctx RefDevice :: evs, q')
  end.

Definition detach : list Event :=
  [ RemoveEventListener Document "deviceready";
    RemoveEventListener Document "DOMContentLoaded";
    RemoveEventListener Window "load" ].

(** One invocation of the bound [_monitor] by the host. *)
Definition _readyCheck (h : Host) (s : State) : Outcome :=
  let d := dev s in
  if negb (body h) then
    if p_readyCheck d then returns s [SetTimeout 20] else throw s []
  else if negb (truthy (deviceReadyAt d)) then
    let d1 := set_deviceReadyAt (now h) d in
    if negb (p_readyCheck d) then throw {| dev := d1; fn := fn s |} []
    else if negb (p_initialize d) then throw {| dev := d1; fn := fn s |} detach
    else
      let d2 := set_initialized (_initialize h d1) in
      if negb (p_onInitialized d) then
        throw {| dev := d2; fn := fn s |} (detach ++ [Probes])
      else
        match _queue (fn s) with
        | None => throw {| dev := d2; fn := fn s |} (detach ++ [Probes; Dispatch])
        | Some q =>
            let '(calls, q') := drain q in
            returns {| dev := release d2;
                       fn := {| _monitor := _monitor (fn s); _queue := Some q' |} |}
                    (detach ++ [Probes; Dispatch] ++ calls)
        end
  else returns s [].

(** *** Runs

    The host and the application interleave subscriptions and firings of
    the monitor; an exception thrown by one call reaches the host's event
    loop, after which later calls proceed from the state it left. *)

Inductive Op : Type :=
| OpWhenReady (cb : Callback) (ctx : Ref) (nonPrimer : bool) (h : Host)
| OpFire (h : Host).

Definition step (op : Op) (s : State) : Outcome :=
  match op with
  | OpWhenReady cb ctx nonPrimer h => whenReady cb ctx nonPrimer h s
  | OpFire h => _readyCheck h s
  end.

Fixpoint run (ops : list Op) (s : State) : State * list Event :=
  match ops with
  | [] => (s, [])
  | op :: rest =>
      let o := step op s in
      let r := run rest (next o) in
      (r.1, emitted o ++ r.2)
  end.

(** States the registry can be in between two calls.  The host fires the
    monitor only once it has been handed over ([_monitor] is set), and
    its clock [Date.now()] never reads exactly zero. *)
Inductive reachable : State -> Prop :=
| reach_init : reachable init
| reach_whenReady cb ctx nonPrimer h s :
    reachable s -> reachable (next (whenReady cb ctx nonPrimer h s))
| reach_fire h s :
    reachable s -> _monitor (fn s) = true -> now h <> 0 ->
    reachable (next (_readyCheck h s)).

(** *** Observations on event lists *)

Definition is_probe (e : Event) : bool :=
  match e with Probes => true | _ => false end.

(** Number of executions of the probe pass. *)
Definition probe_runs (evs : list Event) : nat :=
  length (filter (fun e => is_probe e = true) evs).

(** The subscriber notifications, as (callback, receiver, argument). *)
Definition calls (evs : list Event) : list (Callback * Ref * Ref) :=
  omap (fun e => match e with Call cb ctx arg => Some (cb, ctx, arg) | _ => None end) evs.

(** A listener or timer handed to the host. *)
Definition is_attach (e : Event) : bool :=
  match e with
  | SetTimeout _ | AddEventListener _ _ => true
  | _ => false
  end.

(** The subscribers waiting for the ready transition. *)
Definition pending (s : State) : list (Callback * Ref) :=
  default [] (_queue (fn s)).

(** The notification a queued pair is owed. *)
Definition notified (item : Callback * Ref) : Callback * Ref * Ref :=
  (item.1, item.2, RefDevice).

(** Number of [whenReady] calls of a run that hand a listener or a timer
    to the host. *)
Fixpoint arming_calls (ops : list Op) (s : State) : nat :=
  match ops with
  | [] => 0%nat
  | op :: rest =>
      ((match op with
        | OpWhenReady _ _ _ _ =>
            if existsb is_attach (emitted (step op s)) then 1 else 0
        | OpFire _ => 0
        end) + arming_calls rest (next (step op s)))%nat
  end.

(** The event of notifying a queued pair. *)
Definition notify (i : Callback * Ref) : Event := Call i.1 i.2 RefDevice.

(** What holds of the registry between two calls: the three removable
    properties go together; a monitor exists only once a queue does; and
    the registry is either not ready yet, or ready with its time stamp
    set and its queue drained. *)
Definition consistent (s : State) : Prop :=
  p_initialize (dev s) = p_readyCheck (dev s) /\
  p_onInitialized (dev s) = p_readyCheck (dev s) /\
  (_monitor (fn s) = true -> is_Some (_queue (fn s))) /\
  (if p_readyCheck (dev s)
   then deviceReadyAt (dev s) = 0 /\ initialized (dev s) = false
   else deviceReadyAt (dev s) <> 0 /\ initialized (dev s) = true /\
        _queue (fn s) = Some [] /\ _monitor (fn s) = true).

(** A subscription: the arguments of one [whenReady] call and the host
    it is made on. *)
Record Subscription : Type := {
  callback : Callback;
  context : Ref;
  nonPrimer : bool;
  host : Host
}.

Definition subscribe (x : Subscription) : Op :=
  OpWhenReady (callback x) (context x) (nonPrimer x) (host x).

(** The pair a subscription puts in the queue. *)
Definition item (x : Subscription) : Callback * Ref := (callback x, context x).


(** *** Example hosts *)

(** A page that is still loading and has no [body] yet. *)
Definition loading : Host :=
  {| readyState := "loading"; cordova := false; cocoonJS := false;
     body := false; now := 1000;
     audio_canPlayType := None; video_canPlayType := None |}.

(** A parsed page whose media elements play MP3 and WebM/VP8. *)
Definition parsed : Host :=
  {| readyState := "interactive"; cordova := false; cocoonJS := false;
     body := true; now := 1020;
     audio_canPlayType :=
       Some (fun m => Some (if String.eqb m "audio/mpeg;" then "probably" else ""));
     video_canPlayType :=
       Some (fun m => Some (if String.eqb m (codec "video/webm" "vp8, vorbis")
                            then "maybe" else "no")) |}.

(** The registry after one arming subscription on the loading page. *)
Definition armed : State :=
  next (whenReady 7%nat RefUndefined false loading init).

(** The registry after the ready transition on the parsed page. *)
Definition ready : State := next (_readyCheck parsed armed).

(** *** canPlayAudio / canPlayVideo *)

Definition canPlayAudio (d : Device) (type : string) : bool :=
  if String.eqb type "mp3" && flag d "mp3" then true
  else if String.eqb type "ogg" && (flag d "ogg" || flag d "opus") then true
  else if String.eqb type "m4a" && flag d "m4a" then true
  else if String.eqb type "opus" && flag d "opus" then true
  else if String.eqb type "wav" && flag d "wav" then true
  else if String.eqb type "webm" && flag d "webm" then true
  else false.

Definition canPlayVideo (d : Device) (type : string) : bool :=
  if String.eqb type "webm" && (flag d "webmVideo" || flag d "vp9Video") then true
  else if String.eqb type "mp4" && (flag d "mp4Video" || flag d "h264Video") then true
  else if (String.eqb type "ogg" || String.eqb type "ogv") && flag d "oggVideo" then true
  else if String.eqb type "mpeg" && flag d "hlsVideo" then true
  else false.

(** The media kinds the two queries recognise, each with the flags that
    make it playable. *)
Definition audio_kinds : list (string * list string) :=
  [ ("mp3", ["mp3"]); ("ogg", ["ogg"; "opus"]); ("m4a", ["m4a"]);
    ("opus", ["opus"]); ("wav", ["wav"]); ("webm", ["webm"]) ].

Definition video_kinds : list (string * list string) :=
  [ ("webm", ["webmVideo"; "vp9Video"]); ("mp4", ["mp4Video"; "h264Video"]);
    ("ogg", ["oggVideo"]); ("ogv", ["oggVideo"]); ("mpeg", ["hlsVideo"]) ].

(** *** Whole runs *)

(** The (callback, context) pairs of the [whenReady] calls of a run, in the
    order of the calls. *)
Definition subscribers (ops : list Op) : list (Callback * Ref) :=
  omap (fun op => match op with
                  | OpWhenReady cb ctx _ _ => Some (cb, ctx)
                  | OpFire _ => None
                  end) ops.

(** The clock does not read zero at a firing. *)
Definition clock_ok (op : Op) : Prop :=
  match op with
  | OpFire h => now h <> 0
  | OpWhenReady _ _ _ _ => True
  end.

(** [whenReady] no longer queues: the time stamp is set or the check has
    been removed. *)
Definition settled (s : State) : Prop :=
  truthy (deviceReadyAt (dev s)) = true \/ p_readyCheck (dev s) = false.

(** What every run from the fresh registry keeps, whatever the host does:
    the three removable properties go together, and nothing is pending
    once [whenReady] no longer queues. *)
Definition orderly (s : State) : Prop :=
  p_initialize (dev s) = p_readyCheck (dev s) /\
  p_onInitialized (dev s) = p_readyCheck (dev s) /\
  (settled s -> pending s = []).

(** *** Reading the probes *)

Definition audio_flags : list string := ["ogg"; "opus"; "mp3"; "wav"; "m4a"; "webm"].

Definition video_flags : list string :=
  ["oggVideo"; "h264Video"; "mp4Video"; "webmVideo"; "vp9Video"; "hlsVideo"].

(** The host's answer to a [canPlayType] question counts as a yes: a string
    other than the empty one and ["no"]. *)
Definition affirms (ct : string -> option string) (mime : string) : bool :=
  match ct mime with
  | Some s => negb (String.eqb s "") && negb (String.eqb s "no")
  | None => false
  end.

(** The flags a [try] block sets: those of the steps whose condition holds,
    up to the first condition that throws. *)
Fixpoint fired (steps : list (option bool * list string)) : list string :=
  match steps with
  | [] => []
  | (None, _) :: _ => []
  | (Some c, ks) :: rest => (if c then ks else []) ++ fired rest
  end.

(** The steps of the [try] blocks of [_checkVideo] and [_checkAudio], for a
    media element whose [canPlayType] is [ct]. *)
Definition video_steps (ct : string -> option string) : list (option bool * list string) :=
  [ (cleaned ct (codec "video/ogg" "theora"), ["oggVideo"]);
    (cleaned ct (codec "video/mp4" "avc1.42E01E"), ["h264Video"; "mp4Video"]);
    (cleaned ct (codec "video/webm" "vp8, vorbis"), ["webmVideo"]);
    (cleaned ct (codec "video/webm" "vp9"), ["vp9Video"]);
    (cleaned ct (codec "application/x-mpegURL" "avc1.42E01E"), ["hlsVideo"]) ].

Definition audio_steps (ct : string -> option string) : list (option bool * list string) :=
  [ (cleaned ct (codec "audio/ogg" "vorbis"), ["ogg"]);
    (match cleaned ct (codec "audio/ogg" "opus") with
     | Some false => cleaned ct "audio/opus;"
     | c => c
     end, ["opus"]);
    (cleaned ct "audio/mpeg;", ["mp3"]);
    (cleaned ct (codec "audio/wav" "1"), ["wav"]);
    (if raw ct "audio/x-m4a;" then Some true else cleaned ct "audio/aac;", ["m4a"]);
    (cleaned ct (codec "audio/webm" "vorbis"), ["webm"]) ].

(** The flags one probe pass sets on the host [h]. *)
Definition probed (h : Host) : list string :=
  match audio_canPlayType h with Some ct => fired (audio_steps ct) | None => [] end
  ++ match video_canPlayType h with Some ct => fired (video_steps ct) | None => [] end.

(** A media element that answers every question with a string. *)
Definition answers (ct : string -> option string) : Prop :=
  forall mime, is_Some (ct mime).

(** A host like [parsed] whose video element answers the H.264 question
    with a non-string. *)
Definition parsed_without_quicktime : Host :=
  {| readyState := "interactive"; cordova := false; cocoonJS := false;
     body := true; now := 1020;
     audio_canPlayType := audio_canPlayType parsed;
     video_canPlayType :=
       Some (fun m => if String.eqb m (codec "video/mp4" "avc1.42E01E")
                      then None else Some "probably") |}.

(** *** The operating-system probe: [_checkOS]

    Strings are sequences of bytes, a user agent being the UTF-8 form of
    [navigator.userAgent]; the patterns of the probe are ASCII. *)

(** [/needle/.test(hay)] for a literal [needle]. *)
Fixpoint contains (needle hay : string) : bool :=
  String.prefix needle hay ||
  match hay with
  | EmptyString => false
  | String _ rest => contains needle rest
  end.

Definition is_upper (c : Ascii.ascii) : bool :=
  (65 <=? Ascii.nat_of_ascii c)%nat && (Ascii.nat_of_ascii c <=? 90)%nat.

Definition is_lower (c : Ascii.ascii) : bool :=
  (97 <=? Ascii.nat_of_ascii c)%nat && (Ascii.nat_of_ascii c <=? 122)%nat.

Definition is_digit (c : Ascii.ascii) : bool :=
  (48 <=? Ascii.nat_of_ascii c)%nat && (Ascii.nat_of_ascii c <=? 57)%nat.

(** A word character, [\w]. *)
Definition is_word (c : Ascii.ascii) : bool :=
  is_upper c || is_lower c || is_digit c || (Ascii.nat_of_ascii c =? 95)%nat.

Definition lower_ascii (c : Ascii.ascii) : Ascii.ascii :=
  if is_upper c then Ascii.ascii_of_nat (Ascii.nat_of_ascii c + 32) else c.

Fixpoint lower (s : string) : string :=
  match s with
  | EmptyString => EmptyString
  | String c rest => String (lower_ascii c) (lower rest)
  end.

(** [/needle/i.test(hay)] for a literal ASCII [needle]. *)
Definition contains_ci (needle hay : string) : bool :=
  contains (lower needle) (lower hay).

(** [/\bKF[A-Z][A-Z]+/] matched where [s] starts, [prev] being the
    character before ([K] is byte 75 and [F] byte 70). *)
Definition kf_here (prev : option Ascii.ascii) (s : string) : bool :=
  negb (from_option is_word false prev) &&
  match s with
  | String k (String f (String a (String b _))) =>
      (Ascii.nat_of_ascii k =? 75)%nat && (Ascii.nat_of_ascii f =? 70)%nat &&
      is_upper a && is_upper b
  | _ => false
  end.

(** [/\bKF[A-Z][A-Z]+/.test(s)], [prev] being the character before [s]. *)
Fixpoint kf_search (prev : option Ascii.ascii) (s : string) : bool :=
  kf_here prev s ||
  match s with
  | EmptyString => false
  | String c rest => kf_search (Some c) rest
  end.

(** The line terminators that [.] does not match: LF, CR, and U+2028 and
    U+2029 in their UTF-8 form. *)
Definition line_terminator_here (s : string) : bool :=
  match s with
  | String c rest =>
      (Ascii.nat_of_ascii c =? 10)%nat || (Ascii.nat_of_ascii c =? 13)%nat ||
      match rest with
      | String c2 (String c3 _) =>
          (Ascii.nat_of_ascii c =? 226)%nat && (Ascii.nat_of_ascii c2 =? 128)%nat &&
          ((Ascii.nat_of_ascii c3 =? 168)%nat || (Ascii.nat_of_ascii c3 =? 169)%nat)
      | _ => false
      end
  | EmptyString => false
  end.

(** The part of [s] before its first line terminator. *)
Fixpoint first_line (s : string) : string :=
  match s with
  | EmptyString => EmptyString
  | String c rest =>
      if line_terminator_here s then EmptyString else String c (first_line rest)
  end.

Fixpoint drop_chars (n : nat) (s : string) : string :=
  match n, s with
  | S n', String _ rest => drop_chars n' rest
  | _, _ => s
  end.

(** [/Silk.*Mobile Safari/.test(s)]. *)
Fixpoint silk_mobile_safari (s : string) : bool :=
  (String.prefix "Silk" s && contains "Mobile Safari" (first_line (drop_chars 4 s))) ||
  match s with
  | EmptyString => false
  | String _ rest => silk_mobile_safari rest
  end.

(** [device.<k> = false]. *)
Definition clear_flag (k : string) (d : Device) : Device :=
  {| deviceReadyAt := deviceReadyAt d;
     initialized := initialized d;
     flags := <[k := false]> (flags d);
     p_readyCheck := p_readyCheck d;
     p_initialize := p_initialize d;
     p_onInitialized := p_onInitialized d |}.

(** The flag the [if / else if] chain of [_checkOS] sets, if any. *)
Definition os_of (ua : string) : option string :=
  if contains "Playstation Vita" ua then Some "vita"
  else if contains "Kindle" ua || kf_search None ua || silk_mobile_safari ua then Some "kindle"
  else if contains "Android" ua then Some "android"
  else if contains "CrOS" ua then Some "chromeOS"
  else if contains_ci "ipad" ua || contains_ci "ipod" ua || contains_ci "iphone" ua
       then Some "iOS"
  else if contains "Linux" ua then Some "linux"
  else if contains "Mac OS" ua then Some "macOS"
  else if contains "Windows" ua then Some "windows"
  else None.

(** [/Windows Phone/i.test(ua) || /IEMobile/i.test(ua)]. *)
Definition is_windows_phone (ua : string) : bool :=
  contains_ci "Windows Phone" ua || contains_ci "IEMobile" ua.

Definition _checkOS (ua : string) (d : Device) : Device :=
  let d1 := match os_of ua with Some k => set_flag k d | None => d end in
  let d2 :=
    if is_windows_phone ua then
      set_flag "windowsPhone"
        (set_flag "windows"
           (clear_flag "macOS" (clear_flag "iOS" (clear_flag "android" d1))))
    else d1 in
  let silk := contains "Silk" ua in
  let d3 :=
    if flag d2 "windows" || flag d2 "macOS" || (flag d2 "linux" && negb silk)
       || flag d2 "chromeOS"
    then set_flag "desktop" d2 else d2 in
  if flag d3 "windowsPhone" || (contains_ci "Windows NT" ua && contains_ci "Touch" ua)
  then clear_flag "desktop" d3 else d3.

(** *** The fullscreen probe: [_checkFullScreenSupport] *)

Definition fs : list string :=
  [ "requestFullscreen"; "requestFullScreen";
    "webkitRequestFullscreen"; "webkitRequestFullScreen";
    "msRequestFullscreen"; "msRequestFullScreen";
    "mozRequestFullScreen"; "mozRequestFullscreen" ].

Definition cfs : list string :=
  [ "cancelFullScreen"; "exitFullscreen";
    "webkitCancelFullScreen"; "webkitExitFullscreen";
    "msCancelFullScreen"; "msExitFullscreen";
    "mozCancelFullScreen"; "mozExitFullscreen" ].

(** [for (i = 0; i < names.length; i++) { if (obj[names[i]]) { ...; break; } }]:
    the first of [names] that is a truthy property of [obj], the set of its
    truthy properties. *)
Fixpoint first_present (names : list string) (obj : gset string) : option string :=
  match names with
  | [] => None
  | n :: rest => if decide (n ∈ obj) then Some n else first_present rest obj
  end.

(** The two string properties the probe writes, [''] in a new device. *)
Record FullscreenNames : Type := {
  requestFullscreen : string;
  cancelFullscreen : string
}.

Definition no_names : FullscreenNames :=
  {| requestFullscreen := ""; cancelFullscreen := "" |}.

(** [element] holds the truthy properties of a fresh [div], [document] those
    of the document; [keyboard] is
    [window['Element'] && Element['ALLOW_KEYBOARD_INPUT']]. *)
Definition _checkFullScreenSupport (element document : gset string) (keyboard : bool)
    (d : Device) (n : FullscreenNames) : Device * FullscreenNames :=
  let '(d1, n1) :=
    match first_present fs element with
    | Some name =>
        (set_flag "fullscreen" d,
         {| requestFullscreen := name; cancelFullscreen := cancelFullscreen n |})
    | None => (d, n)
    end in
  let n2 :=
    if flag d1 "fullscreen" then
      match first_present cfs document with
      | Some name => {| requestFullscreen := requestFullscreen n1; cancelFullscreen := name |}
      | None => n1
      end
    else n1 in
  (if keyboard then set_flag "fullscreenKeyboard" d1 else d1, n2).

(** The flags of the chain. *)
Definition os_flags : list string :=
  ["vita"; "kindle"; "android"; "chromeOS"; "iOS"; "linux"; "macOS"; "windows"].

(** The flags that mark a hand-held system. *)
Definition mobile_flags : list string :=
  ["vita"; "kindle"; "android"; "iOS"; "windowsPhone"].

(** User agents of a Kindle Fire HD (Silk), of Chrome on a Linux desktop and
    of Internet Explorer 11 on Windows Phone 8.1. *)
Definition ua_kindle : string :=
  "Mozilla/5.0 (Linux; U; Android 4.0.3; en-us; KFTT Build/IML74K) AppleWebKit/535.19 (KHTML, like Gecko) Silk/2.1 Mobile Safari/535.19 Silk-Accelerated=true".

Definition ua_linux_chrome : string :=
  "Mozilla/5.0 (X11; Linux x86_64) AppleWebKit/537.36 (KHTML, like Gecko) Chrome/41.0.2272.101 Safari/537.36".

Definition ua_windows_phone : string :=
  "Mozilla/5.0 (Mobile; Windows Phone 8.1; Android 4.0; ARM; Trident/7.0; Touch; rv:11.0; IEMobile/11.0; NOKIA; Lumia 920) like iPhone OS 7_0_3 Mac OS X AppleWebKit/537 (KHTML, like Gecko) Mobile Safari/537".

End Device.

(* ===================================================================== *)
(** ** Phaser.RequestAnimationFrame *)
(* ===================================================================== *)

Module RequestAnimationFrame.

(** The two closures that [start] can store in [_onLoop]:
    [function () { return _this.updateSetTimeout(); }] and
    [function (time) { return _this.updateRAF(time); }]. *)
Inductive Loop : Type := LoopSetTimeout | LoopRAF.

(** A timestamp handed to [game.update]: an integer number of
    milliseconds, or [NaN] ([Math.floor] of a missing argument). *)
Inductive Time : Type := Millis (z : Z) | NaN.

(** Calls that leave the scheduler, in program order. *)
Inductive Event : Type :=
| Update (time : Time)
| SetTimeout (id : nat) (cb : option Loop) (delay : Z)
| RequestFrame (id : nat) (cb : option Loop)
| ClearTimeout (id : option nat)
| CancelFrame (id : option nat).

Record Scheduler : Type := {
  isRunning : bool;
  forceSetTimeOut : bool;
  _isSetTimeOut : bool;
  _onLoop : option Loop;
  _timeOutID : option nat
}.

(** The scheduler together with the part of its host it talks to:
    the function-valued properties of [window], the timer and frame
    callbacks the host still has to run, the next handle it will give
    out, [game.time.timeToCall], and the calls made so far. *)
Record World : Type := {
  raf : Scheduler;
  window : gset string;
  timers : gmap nat (option Loop);
  frames : gmap nat (option Loop);
  next_id : nat;
  timeToCall : Z;
  log : list Event
}.

Definition with_raf (r : Scheduler) (w : World) : World :=
  {| raf := r; window := window w; timers := timers w; frames := frames w;
     next_id := next_id w; timeToCall := timeToCall w; log := log w |}.

Definition with_window (win : gset string) (w : World) : World :=
  {| raf := raf w; window := win; timers := timers w; frames := frames w;
     next_id := next_id w; timeToCall := timeToCall w; log := log w |}.

Definition with_timers (t : gmap nat (option Loop)) (w : World) : World :=
  {| raf := raf w; window := window w; timers := t; frames := frames w;
     next_id := next_id w; timeToCall := timeToCall w; log := log w |}.

Definition with_frames (f : gmap nat (option Loop)) (w : World) : World :=
  {| raf := raf w; window := window w; timers := timers w; frames := f;
     next_id := next_id w; timeToCall := timeToCall w; log := log w |}.

Definition fresh (w : World) : World :=
  {| raf := raf w; window := window w; timers := timers w; frames := frames w;
     next_id := S (next_id w); timeToCall := timeToCall w; log := log w |}.

Definition record (e : Event) (w : World) : World :=
  {| raf := raf w; window := window w; timers := timers w; frames := frames w;
     next_id := next_id w; timeToCall := timeToCall w; log := log w ++ [e] |}.

Definition set_isRunning (b : bool) (w : World) : World :=
  with_raf {| isRunning := b; forceSetTimeOut := forceSetTimeOut (raf w);
              _isSetTimeOut := _isSetTimeOut (raf w); _onLoop := _onLoop (raf w);
              _timeOutID := _timeOutID (raf w) |} w.

Definition set_path (fallback : bool) (cb : Loop) (w : World) : World :=
  with_raf {| isRunning := isRunning (raf w); forceSetTimeOut := forceSetTimeOut (raf w);
              _isSetTimeOut := fallback; _onLoop := Some cb;
              _timeOutID := _timeOutID (raf w) |} w.

Definition set_timeOutID (id : nat) (w : World) : World :=
  with_raf {| isRunning := isRunning (raf w); forceSetTimeOut := forceSetTimeOut (raf w);
              _isSetTimeOut := _isSetTimeOut (raf w); _onLoop := _onLoop (raf w);
              _timeOutID := Some id |} w.

(** *** Host primitives *)

(** [window.setTimeout(cb, delay)]: returns a new handle. *)
Definition setTimeout (cb : option Loop) (delay : Z) (w : World) : nat * World :=
  let id := next_id w in
  (id, fresh (with_timers (<[id := cb]> (timers w)) (record (SetTimeout id cb delay) w))).

(** [window.requestAnimationFrame(cb)]: returns a new handle; a [TypeError]
    when the property is undefined or [cb] is not a function. *)
Definition requestAnimationFrame (cb : option Loop) (w : World) : option (nat * World) :=
  if decide ("requestAnimationFrame" ∈ window w) then
    match cb with
    | None => None
    | Some _ =>
        let id := next_id w in
        Some (id, fresh (with_frames (<[id := cb]> (frames w)) (record (RequestFrame id cb) w)))
    end
  else None.

(** [clearTimeout(id)]: forgets the pending timer with that handle, if any. *)
Definition clearTimeout (id : option nat) (w : World) : World :=
  let w' := record (ClearTimeout id) w in
  match id with
  | Some i => with_timers (delete i (timers w')) w'
  | None => w'
  end.

(** [window.cancelAnimationFrame(id)]: a [TypeError] when the property is
    undefined. *)
Definition cancelAnimationFrame (id : option nat) (w : World) : option World :=
  if decide ("cancelAnimationFrame" ∈ window w) then
    let w' := record (CancelFrame id) w in
    Some match id with
         | Some i => with_frames (delete i (frames w')) w'
         | None => w'
         end
  else None.

(** *** Constructor *)

Definition vendors : list string := ["ms"; "moz"; "webkit"; "o"].

(** [window.<dst> = window[<src>]]. *)
Definition assign (dst src : string) (win : gset string) : gset string :=
  if decide (src ∈ win) then {[dst]} ∪ win else win ∖ {[dst]}.

(** [for (x = 0; x < vendors.length && !window.requestAnimationFrame; x++)]. *)
Fixpoint polyfill (vs : list string) (win : gset string) : gset string :=
  match vs with
  | [] => win
  | v :: rest =>
      if decide ("requestAnimationFrame" ∈ win) then win
      else polyfill rest
             (assign "cancelAnimationFrame" (v +:+ "CancelAnimationFrame")
                (assign "requestAnimationFrame" (v +:+ "RequestAnimationFrame") win))
  end.

(** [new Phaser.RequestAnimationFrame(game, forceSetTimeOut)] on a host
    whose [window] defines the functions [win]; [ttc] is the game's
    [time.timeToCall]. *)
Definition new (force : option bool) (win : gset string) (ttc : Z) : World :=
  {| raf := {| isRunning := false;
               forceSetTimeOut := default false force;
               _isSetTimeOut := false;
               _onLoop := None;
               _timeOutID := None |};
     window := polyfill vendors win;
     timers := ∅;
     frames := ∅;
     next_id := 1;
     timeToCall := ttc;
     log := [] |}.

(** *** Methods

    [game.update] is code of the owner: given the timestamp it may do
    anything to the world, in particular call [stop]; it yields [None]
    when it throws. *)
Definition Driver : Type := Time -> World -> option World.

Definition start (w : World) : option World :=
  let w1 := set_isRunning true w in
  if negb (bool_decide ("requestAnimationFrame" ∈ window w1)) || forceSetTimeOut (raf w1) then
    let w2 := set_path true LoopSetTimeout w1 in
    let '(id, w3) := setTimeout (_onLoop (raf w2)) 0 w2 in
    Some (set_timeOutID id w3)
  else
    let w2 := set_path false LoopRAF w1 in
    '(id, w3) ← requestAnimationFrame (_onLoop (raf w2)) w2;
    Some (set_timeOutID id w3).

Definition floor (rafTime : option Q) : Time :=
  match rafTime with
  | Some q => Millis (Qfloor q)
  | None => NaN
  end.

Definition updateRAF (update : Driver) (rafTime : option Q) (w : World) : option World :=
  w1 ← update (floor rafTime) (record (Update (floor rafTime)) w);
  '(id, w2) ← requestAnimationFrame (_onLoop (raf w1)) w1;
  Some (set_timeOutID id w2).

Definition updateSetTimeout (update : Driver) (now : Z) (w : World) : option World :=
  w1 ← update (Millis now) (record (Update (Millis now)) w);
  let '(id, w2) := setTimeout (_onLoop (raf w1)) (timeToCall w1) w1 in
  Some (set_timeOutID id w2).

Definition stop (w : World) : option World :=
  w1 ← (if _isSetTimeOut (raf w) then Some (clearTimeout (_timeOutID (raf w)) w)
        else cancelAnimationFrame (_timeOutID (raf w)) w);
  Some (set_isRunning false w1).

Definition isSetTimeOut (w : World) : bool := _isSetTimeOut (raf w).

Definition isRAF (w : World) : bool := bool_decide (_isSetTimeOut (raf w) = false).

(** *** The host's event loop *)

(** Running a stored callback: the timeout closure ignores its argument
    and reads the clock, the frame closure passes its argument on. *)
Definition call_loop (update : Driver) (cb : option Loop) (arg : option Q) (now : Z)
    (w : World) : option World :=
  match cb with
  | Some LoopSetTimeout => updateSetTimeout update now w
  | Some LoopRAF => updateRAF update arg w
  | None => Some w
  end.

(** The host runs the pending timer [id] at clock reading [now]; nothing
    happens when no such timer is pending. *)
Definition fire_timer (update : Driver) (now : Z) (id : nat) (w : World) : option World :=
  match timers w !! id with
  | Some cb => call_loop update cb None now (with_timers (delete id (timers w)) w)
  | None => Some w
  end.

(** The host runs the pending frame callback [id] with the timestamp
    [rafTime]. *)
Definition fire_frame (update : Driver) (rafTime : Q) (now : Z) (id : nat) (w : World)
    : option World :=
  match frames w !! id with
  | Some cb => call_loop update cb (Some rafTime) now (with_frames (delete id (frames w)) w)
  | None => Some w
  end.

(** *** Observations *)

Definition is_update (e : Event) : bool :=
  match e with Update _ => true | _ => false end.

Definition is_schedule (e : Event) : bool :=
  match e with SetTimeout _ _ _ | RequestFrame _ _ => true | _ => false end.

Definition is_cancel (e : Event) : bool :=
  match e with ClearTimeout _ | CancelFrame _ => true | _ => false end.

(** Number of driver invocations recorded in a log. *)
Definition updates (l : list Event) : nat :=
  length (filter (fun e => is_update e = true) l).

(** The part of a log after its last cancellation: what happened since the
    most recent [stop]. *)
Fixpoint after_stop (l : list Event) : list Event :=
  match l with
  | [] => []
  | e :: rest =>
      if existsb is_cancel rest then after_stop rest
      else if is_cancel e then rest else e :: rest
  end.

(** *** Example hosts and drivers *)

(** A [window] with the unprefixed frame functions. *)
Definition native : gset string :=
  {["requestAnimationFrame"; "cancelAnimationFrame"]}.

(** A [window] with no frame function at all. *)
Definition bare : gset string := ∅.

(** The frame functions a vendor prefix names are not the unprefixed
    ones. *)
Definition prefixed (v : string) : Prop :=
  v +:+ "RequestAnimationFrame" <> "requestAnimationFrame" /\
  v +:+ "RequestAnimationFrame" <> "cancelAnimationFrame".

(** A driver that does nothing. *)
Definition idle : Driver := fun _ w => Some w.

(** A driver that calls [stop()] on every invocation. *)
Definition stopping : Driver := fun _ w => stop w.

(** A driver that counts its invocations and calls [stop()] on the [n]-th;
    the count is the number of [Update] events, its own included. *)
Definition stop_at (n : nat) : Driver :=
  fun _ w => if Nat.eqb (updates (log w)) n then stop w else Some w.

(** A scheduler started on the frame path, after the host has run its
    first frame with a driver that stops it. *)
Definition stopped_in_frame : option World :=
  start (new None native 16) ≫= fire_frame stopping (5 # 2) 0 1.

(** The same on the timer path, forced at construction. *)
Definition stopped_in_timer : option World :=
  start (new (Some true) native 16) ≫= fire_timer stopping 100 1.

(** *** The running loop *)

Definition with_timeToCall (ttc : Z) (w : World) : World :=
  {| raf := raf w; window := window w; timers := timers w; frames := frames w;
     next_id := next_id w; timeToCall := ttc; log := log w |}.

(** A driver that keeps to its own business: it returns normally and the
    only thing it may change is [game.time.timeToCall]. *)
Definition passive (update : Driver) : Prop :=
  forall t w, exists ttc, update t w = Some (with_timeToCall ttc w).

(** The scheduler is running with exactly one request at the host, the one
    whose handle is [_timeOutID], carrying the closure of the chosen path. *)
Definition ticking (w : World) : Prop :=
  isRunning (raf w) = true /\
  exists id, _timeOutID (raf w) = Some id /\
    if _isSetTimeOut (raf w)
    then _onLoop (raf w) = Some LoopSetTimeout /\
         timers w = {[id := Some LoopSetTimeout]} /\ frames w = ∅
    else _onLoop (raf w) = Some LoopRAF /\
         frames w = {[id := Some LoopRAF]} /\ timers w = ∅ /\
         "requestAnimationFrame" ∈ window w.

(** The host runs the request [id], as a timer or as a frame according to
    the path the scheduler is on. *)
Definition fire (update : Driver) (rafTime : Q) (now : Z) (id : nat) (w : World)
    : option World :=
  if _isSetTimeOut (raf w) then fire_timer update now id w
  else fire_frame update rafTime now id w.

(** Number of requests the host still has to run. *)
Definition requests (w : World) : nat := (size (timers w) + size (frames w))%nat.

(** A driver that sets the delay of the next timer to the timestamp it is
    given modulo 50. *)
Definition pacing : Driver :=
  fun t w => Some (with_timeToCall (match t with Millis z => z mod 50 | NaN => 0 end) w).

(** A scheduler just started on the frame path, and one on the timer path. *)
Definition started_on_frames : World :=
  default (new None native 16) (start (new None native 16)).

Definition started_on_timers : World :=
  default (new (Some true) native 16) (start (new (Some true) native 16)).

(** A scheduler started on a host that only has the [webkit]-prefixed frame
    request function. *)
Definition webkit_only : World := new None {["webkitRequestAnimationFrame"]} 16.

End RequestAnimationFrame.

(* ===================================================================== *)
(** ** Phaser.DOM: viewports and screen orientation *)
(* ===================================================================== *)

Module DOM.

(** The integer measures of the page that the viewport getters read:
    [window.innerWidth], [document.documentElement.clientWidth] and so on. *)
Record Page : Type := {
  innerWidth : Z;
  innerHeight : Z;
  clientWidth : Z;
  clientHeight : Z;
  offsetWidth : Z;
  offsetHeight : Z;
  scrollWidth : Z;
  scrollHeight : Z
}.

(** The decision the [whenReady] callback of [Phaser.DOM] takes once, from
    the device it is handed and the page as it is at that moment. *)
Definition treatAsDesktop (d : Device.Device) (p0 : Page) : bool :=
  Device.flag d "desktop" &&
  (clientWidth p0 <=? innerWidth p0) && (clientHeight p0 <=? innerHeight p0).

(** The getters the callback installs, read on the page [p] as it is when
    the property is read. *)
Definition visualBounds_width (desktop : bool) (p : Page) : Z :=
  if desktop then Z.max (innerWidth p) (clientWidth p) else innerWidth p.

Definition visualBounds_height (desktop : bool) (p : Page) : Z :=
  if desktop then Z.max (innerHeight p) (clientHeight p) else innerHeight p.

Definition layoutBounds_width (desktop : bool) (p : Page) : Z :=
  if desktop then Z.max (innerWidth p) (clientWidth p)
  else let a := clientWidth p in let b := innerWidth p in if a <? b then b else a.

Definition layoutBounds_height (desktop : bool) (p : Page) : Z :=
  if desktop then Z.max (innerHeight p) (clientHeight p)
  else let a := clientHeight p in let b := innerHeight p in if a <? b then b else a.

Definition documentBounds_width (p : Page) : Z :=
  Z.max (Z.max (clientWidth p) (offsetWidth p)) (scrollWidth p).

Definition documentBounds_height (p : Page) : Z :=
  Z.max (Z.max (clientHeight p) (offsetHeight p)) (scrollHeight p).

(** A value of [screen.orientation], [screen.mozOrientation] or
    [screen.msOrientation]: undefined, a string, or an object whose [type]
    is a string or something else. *)
Inductive Orientation : Type :=
| OUndefined
| OString (s : string)
| OObject (type : option string).

Definition truthy (o : Orientation) : bool :=
  match o with
  | OUndefined => false
  | OString s => negb (String.eqb s "")
  | OObject _ => true
  end.

(** [a || b]. *)
Definition or_else (a b : Orientation) : Orientation := if truthy a then a else b.

(** What [getScreenOrientation] reads of [window]: the screen;
    [window.orientation] when it is a number; [window.matchMedia], which
    maps a query to its [matches]. *)
Record Window : Type := {
  screen_orientation : Orientation;
  screen_mozOrientation : Orientation;
  screen_msOrientation : Orientation;
  screen_width : Z;
  screen_height : Z;
  window_orientation : option Z;
  matchMedia : option (string -> bool)
}.

Definition PORTRAIT : string := "portrait-primary".
Definition LANDSCAPE : string := "landscape-primary".

(** [vw] and [vh] are [this.visualBounds.width] and [.height];
    [primaryFallback] is [None] when the argument is omitted. *)
Definition getScreenOrientation (win : Window) (vw vh : Z) (primaryFallback : option string)
    : string :=
  let orientation :=
    or_else (or_else (screen_orientation win) (screen_mozOrientation win))
            (screen_msOrientation win) in
  match orientation with
  | OObject (Some type) => type
  | OString s => s
  | _ =>
      let by_viewport := if vw <? vh then PORTRAIT else LANDSCAPE in
      let by_media :=
        match matchMedia win with
        | Some matches =>
            if matches "(orientation: portrait)" then PORTRAIT
            else if matches "(orientation: landscape)" then LANDSCAPE
            else by_viewport
        | None => by_viewport
        end in
      match primaryFallback with
      | Some f =>
          if String.eqb f "screen" then
            if screen_width win <? screen_height win then PORTRAIT else LANDSCAPE
          else if String.eqb f "viewport" then by_viewport
          else if String.eqb f "window.orientation" then
            match window_orientation win with
            | Some n => if (n =? 0) || (n =? 180) then PORTRAIT else LANDSCAPE
            | None => by_media
            end
          else by_media
      | None => by_media
      end
  end.

(** A window without any orientation property, and a phone held upright
    that implements the Screen Orientation API. *)
Definition plain_window : Window :=
  {| screen_orientation := OUndefined; screen_mozOrientation := OUndefined;
     screen_msOrientation := OUndefined; screen_width := 1920; screen_height := 1080;
     window_orientation := None; matchMedia := None |}.

Definition phone_window : Window :=
  {| screen_orientation := OObject (Some "portrait-secondary");
     screen_mozOrientation := OUndefined; screen_msOrientation := OUndefined;
     screen_width := 360; screen_height := 640;
     window_orientation := Some 180; matchMedia := None |}.

(** A desktop page with a vertical scrollbar of 15 pixels. *)
Definition scrollbar_page : Page :=
  {| innerWidth := 1280; innerHeight := 720; clientWidth := 1265; clientHeight := 720;
     offsetWidth := 1265; offsetHeight := 2400; scrollWidth := 1265; scrollHeight := 2400 |}.

End DOM.

(* ===================================================================== *)
(** ** Phaser.Canvas: image smoothing *)
(* ===================================================================== *)

Module Canvas.

(** The boolean properties of a 2d context. *)
Definition Context : Type := gmap string bool.

Definition vendor : list string := ["i"; "mozI"; "oI"; "webkitI"; "msI"].

(** [for (var prefix in vendor) { var s = vendor[prefix] + 'mageSmoothingEnabled';
    if (s in context) { context[s] = value; return context; } } return context;]. *)
Fixpoint set_first (vs : list string) (context : gmap string bool) (value : bool)
    : gmap string bool :=
  match vs with
  | [] => context
  | v :: rest =>
      let s := v +:+ "mageSmoothingEnabled" in
      if decide (is_Some (context !! s)) then <[s := value]> context
      else set_first rest context value
  end.

Definition setSmoothingEnabled (context : gmap string bool) (value : bool) : gmap string bool :=
  set_first vendor context value.

(** [a || b] on property values, [None] being [undefined]. *)
Definition or_else (a b : option bool) : option bool :=
  match a with
  | Some true => a
  | _ => b
  end.

Definition getSmoothingEnabled (context : gmap string bool) : option bool :=
  or_else (or_else (or_else (or_else (context !! "imageSmoothingEnabled")
                                     (context !! "mozImageSmoothingEnabled"))
                            (context !! "oImageSmoothingEnabled"))
                   (context !! "webkitImageSmoothingEnabled"))
          (context !! "msImageSmoothingEnabled").

(** The five property names, in the order of both functions. *)
Definition smoothing_names : list string :=
  (fun v => v +:+ "mageSmoothingEnabled") <$> vendor.

End Canvas.

(* ===================================================================== *)
(** ** Properties of the device registry *)
(* ===================================================================== *)

Section DeviceFacts.

Import Device.

(** *** The probes only touch the media flags *)

Lemma unchanged_refl d : unchanged d d.
Proof. by repeat split. Qed.

Lemma set_flags_unchanged ks d : unchanged d (foldl (fun acc k => set_flag k acc) d ks).
Proof.
  revert d. induction ks as [|k ks IH]; intros d; simpl; [apply unchanged_refl|].
  destruct (IH (set_flag k d)) as (?&?&?&?&?). by repeat split.
Qed.

Lemma try_block_unchanged steps d : unchanged d (try_block steps d).
Proof.
  revert d. induction steps as [|[[c|] ks] steps IH]; intros d; simpl;
    try apply unchanged_refl.
  destruct c; [|apply IH].
  destruct (IH (foldl (fun acc k => set_flag k acc) d ks)) as (?&?&?&?&?).
  destruct (set_flags_unchanged ks d) as (?&?&?&?&?).
  repeat split; congruence.
Qed.

Lemma unchanged_trans d1 d2 d3 : unchanged d1 d2 -> unchanged d2 d3 -> unchanged d1 d3.
Proof. unfold unchanged. intuition congruence. Qed.

Lemma _initialize_unchanged h d : unchanged d (_initialize h d).
Proof.
  unfold _initialize, _checkVideo, _checkAudio.
  destruct (audio_canPlayType h), (video_canPlayType h);
    repeat first [ apply unchanged_refl | apply try_block_unchanged
                 | eapply unchanged_trans; [apply try_block_unchanged|] ].
Qed.





(** *** The drain loop *)

Lemma drain_spec q : drain q = (notify <$> q, []).
Proof.
  induction q as [|[cb ctx] q IH]; simpl; [done|]. by rewrite IH.
Qed.

(** *** Counting events *)

Lemma probe_runs_app l1 l2 : probe_runs (l1 ++ l2) = (probe_runs l1 + probe_runs l2)%nat.
Proof. unfold probe_runs. by rewrite filter_app, length_app. Qed.


Lemma probe_runs_notify q : probe_runs (notify <$> q) = 0%nat.
Proof. induction q as [|i q IH]; [done|]. exact IH. Qed.

Lemma calls_notify q : calls (notify <$> q) = notified <$> q.
Proof.
  induction q as [|[cb ctx] q IH]; [done|].
  change (calls (notify <$> (cb, ctx) :: q))
    with ((cb, ctx, RefDevice) :: calls (notify <$> q)).
  by rewrite IH.
Qed.



(** *** What each branch of the two operations does *)

Lemma truthy_0 z : z = 0 -> truthy z = false.
Proof. intros ->. done. Qed.

Lemma truthy_nonzero z : z <> 0 -> truthy z = true.
Proof. intros H. unfold truthy. by destruct (Z.eqb_spec z 0). Qed.


(** The ready transition. *)
Lemma _readyCheck_transition h s q :
  body h = true -> consistent s -> p_readyCheck (dev s) = true ->
  _queue (fn s) = Some q ->
  _readyCheck h s
  = returns {| dev := release (set_initialized
                                 (_initialize h (set_deviceReadyAt (now h) (dev s))));
               fn := {| _monitor := _monitor (fn s); _queue := Some [] |} |}
            (detach ++ [Probes; Dispatch] ++ (notify <$> q)).
Proof.
  intros Hb (Hi & Ho & _ & Hc) Hp Hq. rewrite Hp in Hi, Ho, Hc.
  destruct Hc as [Hz _]. unfold _readyCheck.
  rewrite Hb, Hp, Hi, Ho, Hq, (truthy_0 _ Hz). simpl. by rewrite drain_spec.
Qed.

(** A firing on the ready registry does nothing. *)
Lemma _readyCheck_ready h s :
  body h = true -> deviceReadyAt (dev s) <> 0 -> _readyCheck h s = returns s [].
Proof. intros Hb Hz. unfold _readyCheck. by rewrite Hb, (truthy_nonzero _ Hz). Qed.

(** *** The invariant *)

Lemma init_consistent : consistent init.
Proof. by repeat split. Qed.

Lemma whenReady_consistent cb ctx np h s :
  consistent s -> consistent (next (whenReady cb ctx np h s)).
Proof.
  intros (Hi & Ho & Hm & Hc). unfold whenReady.
  destruct (truthy (deviceReadyAt (dev s)) || negb (p_readyCheck (dev s))) eqn:E;
    [by repeat split|].
  apply orb_false_iff in E as [_ Hp%negb_false_iff]. rewrite Hp in Hc.
  assert (forall f, consistent {| dev := dev s; fn := push cb ctx f |}) as Hpush.
  { intros f. unfold consistent. simpl. rewrite Hp.
    destruct Hc. repeat split; try congruence. intros _. by eexists. }
  repeat case_match; apply Hpush.
Qed.

Lemma _readyCheck_consistent h s :
  consistent s -> _monitor (fn s) = true -> now h <> 0 ->
  consistent (next (_readyCheck h s)).
Proof.
  intros Hs Hmon Hnow.
  destruct (body h) eqn:Hb; cycle 1.
  { unfold _readyCheck. rewrite Hb. simpl. by destruct (p_readyCheck (dev s)). }
  pose proof Hs as (Hi & Ho & Hm & Hc).
  destruct (p_readyCheck (dev s)) eqn:Hp.
  - destruct (Hm Hmon) as [q Hq].
    rewrite (_readyCheck_transition h s q) by done.
    pose proof (_initialize_unchanged h (set_deviceReadyAt (now h) (dev s)))
      as (Ht & _).
    unfold consistent. simpl. rewrite Ht. simpl. by repeat split.
  - destruct Hc as (Hz & _). by rewrite _readyCheck_ready.
Qed.

Lemma reachable_consistent s : reachable s -> consistent s.
Proof.
  induction 1 as [|cb ctx np h s _ IH|h s _ IH Hmon Hnow].
  - apply init_consistent.
  - by apply whenReady_consistent.
  - by apply _readyCheck_consistent.
Qed.


(** *** Runs of firings and of subscriptions *)







(** A registry that is reachable and not yet initialized still has its
    coordination properties and an unset time stamp. *)
Lemma not_initialized_before_ready s :
  reachable s -> initialized (dev s) = false ->
  consistent s /\ p_readyCheck (dev s) = true /\ deviceReadyAt (dev s) = 0.
Proof.
  intros Hr Hi. pose proof (reachable_consistent s Hr) as Hs.
  split; [done|]. destruct Hs as (_ & _ & _ & Hc).
  destruct (p_readyCheck (dev s)); [tauto | destruct Hc as (_ & ? & _); congruence].
Qed.

Lemma initialized_after_ready s :
  reachable s -> initialized (dev s) = true ->
  p_readyCheck (dev s) = false /\ deviceReadyAt (dev s) <> 0 /\ _queue (fn s) = Some [].
Proof.
  intros Hr Hi. destruct (reachable_consistent s Hr) as (_ & _ & _ & Hc).
  destruct (p_readyCheck (dev s)); [destruct Hc; congruence | tauto].
Qed.

(** *** The monitor, once bound, stays bound *)

Lemma step_keeps_monitor op s :
  _monitor (fn s) = true -> _monitor (fn (next (step op s))) = true.
Proof.
  intros Hm. destruct op as [cb ctx np h|h]; simpl.
  - unfold whenReady. repeat case_match; simpl; done.
  - unfold _readyCheck. repeat case_match; simpl; done.
Qed.

Lemma whenReady_attach_binds cb ctx np h s :
  existsb is_attach (emitted (whenReady cb ctx np h s)) = true ->
  _monitor (fn s) = false /\ _monitor (fn (next (whenReady cb ctx np h s))) = true.
Proof.
  unfold whenReady. destruct (_monitor (fn s)) eqn:Hm;
    repeat case_match; simpl; try done; intros _; done.
Qed.

Lemma armed_never_arms ops s :
  _monitor (fn s) = true -> arming_calls ops s = 0%nat.
Proof.
  revert s. induction ops as [|op ops IH]; intros s Hm; [done|].
  simpl. rewrite (IH _ (step_keeps_monitor op s Hm)).
  destruct op as [cb ctx np h|h]; [|done]. simpl.
  destruct (existsb is_attach (emitted (whenReady cb ctx np h s))) eqn:E; [|done].
  apply whenReady_attach_binds in E as [? _]. congruence.
Qed.

Lemma arming_calls_le_1 ops s : (arming_calls ops s <= 1)%nat.
Proof.
  revert s. induction ops as [|op ops IH]; intros s; simpl; [lia|].
  destruct op as [cb ctx np h|h]; [|apply IH]. simpl.
  destruct (existsb is_attach (emitted (whenReady cb ctx np h s))) eqn:E; [|apply IH].
  apply whenReady_attach_binds in E as [_ Hm].
  rewrite (armed_never_arms ops _ Hm). lia.
Qed.


(** *** The model on concrete hosts *)

(** Subscribing on a page that is already parsed arms a zero-delay timer;
    when it fires, the subscriber is called once and the registry is
    ready. *)
Example subscribe_then_tick :
  run [OpWhenReady 5%nat (RefObject 1) false parsed; OpFire parsed] init
  = (next (_readyCheck parsed (next (whenReady 5%nat (RefObject 1) false parsed init))),
     [SetTimeout 0] ++ detach ++ [Probes; Dispatch; Call 5%nat (RefObject 1) RefDevice])
  /\ initialized (dev (run [OpWhenReady 5%nat (RefObject 1) false parsed; OpFire parsed]
                        init).1) = true
  /\ deviceReadyAt (dev (run [OpWhenReady 5%nat (RefObject 1) false parsed; OpFire parsed]
                          init).1) = 1020.
Proof. repeat split; reflexivity. Qed.

(** The probes on the parsed page find MP3 and WebM/VP8 and nothing else. *)
Example probes_on_parsed :
  filter (fun k => flag (dev ready) k = true) media_flags = ["mp3"; "webmVideo"].
Proof. vm_compute. reflexivity. Qed.

(** A media element that answers one question with a non-string makes
    [.replace] throw: the flags written before that point stay, the
    later ones are not tried. *)
Example probes_stop_at_exception :
  let h := {| readyState := "complete"; cordova := false; cocoonJS := false;
              body := true; now := 5;
              audio_canPlayType := None;
              video_canPlayType :=
                Some (fun m => if String.eqb m (codec "video/webm" "vp8, vorbis")
                               then None else Some "probably") |} in
  filter (fun k => flag (_initialize h new_Device) k = true) media_flags
  = ["oggVideo"; "h264Video"; "mp4Video"].
Proof. vm_compute. reflexivity. Qed.

(** After the ready transition a firing that finds no body dereferences
    the removed [_readyCheck] and throws, leaving the registry as it is. *)
Example late_poll_throws :
  _readyCheck loading ready = throw ready [].
Proof. reflexivity. Qed.

(** *** Claims about the ready transition *)




(** C3: on a registry that has reached READY, every [whenReady] call, with
    any arguments and on any host, returns normally having made exactly
    one call, of its callback with its context as receiver and the device
    as argument, and leaves the registry, its queue included, as it was;
    so any number of such subscriptions in a row produce exactly their
    own notifications, in order. *)
Theorem whenReady_when_ready_calls_immediately (s : State) (xs : list Subscription) :
  reachable s -> initialized (dev s) = true ->
  Forall (fun x => whenReady (callback x) (context x) (nonPrimer x) (host x) s
                   = returns s [Call (callback x) (context x) RefDevice]) xs /\
  run (subscribe <$> xs) s
  = (s, (fun x => Call (callback x) (context x) RefDevice) <$> xs).
Proof.
  intros Hr Hi. destruct (initialized_after_ready s Hr Hi) as (Hp & _ & _).
  assert (forall x, whenReady (callback x) (context x) (nonPrimer x) (host x) s
                    = returns s [Call (callback x) (context x) RefDevice]) as Hcall.
  { intros x. unfold whenReady. rewrite Hp. by rewrite orb_true_r. }
  split; [by apply Forall_forall|].
  induction xs as [|x xs IH]; [done|].
  rewrite fmap_cons. simpl. rewrite Hcall. simpl. by rewrite IH.
Qed.

Lemma whenReady_when_ready_calls_immediately_witness :
  reachable ready /\ initialized (dev ready) = true /\
  run (subscribe <$> [ {| callback := 3%nat; context := RefObject 1; nonPrimer := false;
                          host := parsed |};
                       {| callback := 4%nat; context := RefUndefined; nonPrimer := true;
                          host := loading |} ]) ready
  = (ready, [Call 3%nat (RefObject 1) RefDevice; Call 4%nat RefUndefined RefDevice]).
Proof.
  assert (reachable ready) as Hr.
  { apply reach_fire; [apply reach_whenReady, reach_init | reflexivity | discriminate]. }
  split; [exact Hr|]. split; [reflexivity|].
  refine (proj2 (whenReady_when_ready_calls_immediately ready
                   [ {| callback := 3%nat; context := RefObject 1; nonPrimer := false;
                        host := parsed |};
                     {| callback := 4%nat; context := RefUndefined; nonPrimer := true;
                        host := loading |} ] Hr _)).
  reflexivity.
Defined.






(** *** Claims about arming *)

(** C6: in any run of the registry, whatever subscriptions and firings it
    is made of, at most one [whenReady] call hands a listener or a timer
    to the host; and a [whenReady] call made before readiness with the
    monitor already set, or with [nonPrimer] true, returns having only
    appended its (callback, context) pair to the queue: the device and
    the monitor are as before and no host call is made. *)
Theorem arming_happens_at_most_once
    (ops : list Op) (s : State) (cb : Callback) (ctx : Ref) (np : bool) (h : Host) :
  (arming_calls ops init <= 1)%nat /\
  (reachable s -> initialized (dev s) = false ->
   _monitor (fn s) = true \/ np = true ->
   whenReady cb ctx np h s
   = returns {| dev := dev s;
                fn := {| _monitor := _monitor (fn s);
                         _queue := Some (pending s ++ [(cb, ctx)]) |} |} []).
Proof.
  split; [apply arming_calls_le_1|].
  intros Hr Hi Hor.
  destruct (not_initialized_before_ready s Hr Hi) as (_ & Hp & Hz).
  unfold whenReady. rewrite (truthy_0 _ Hz), Hp. simpl.
  destruct Hor as [Hm | ->]; [|by rewrite orb_true_r].
  unfold push. by rewrite Hm.
Qed.

Lemma arming_happens_at_most_once_witness :
  (arming_calls [ OpWhenReady 1%nat RefUndefined true loading;
                  OpWhenReady 2%nat RefUndefined false loading;
                  OpFire loading;
                  OpWhenReady 3%nat RefUndefined false parsed;
                  OpFire parsed;
                  OpWhenReady 4%nat RefUndefined false parsed ] init <= 1)%nat /\
  whenReady 8%nat (RefObject 1) false parsed armed
  = returns {| dev := dev armed;
               fn := {| _monitor := true;
                        _queue := Some [(7%nat, RefUndefined); (8%nat, RefObject 1)] |} |} [].
Proof.
  destruct (arming_happens_at_most_once
              [ OpWhenReady 1%nat RefUndefined true loading;
                OpWhenReady 2%nat RefUndefined false loading;
                OpFire loading;
                OpWhenReady 3%nat RefUndefined false parsed;
                OpFire parsed;
                OpWhenReady 4%nat RefUndefined false parsed ]
              armed 8%nat (RefObject 1) false parsed) as [Hle Happend].
  split; [exact Hle|].
  apply Happend.
  - apply reach_whenReady, reach_init.
  - reflexivity.
  - left. reflexivity.
Defined.

(** C8: the [whenReady] call that arms the registry (not yet initialized,
    no monitor yet, [nonPrimer] false) binds the monitor, queues its pair
    and leaves the device untouched, so the readiness check is not run
    inside the call; what it hands to the host is decided by the host in
    this order: (1) a document that is [complete] or [interactive] gets
    one zero-delay timer and no listener; (2) otherwise, under Cordova
    and not CocoonJS, only a [deviceready] listener on the document;
    (3) otherwise a [DOMContentLoaded] listener on the document and a
    [load] listener on the window.  Whichever of these then fires the
    monitor first, with a body present, runs the probe pass. *)
Theorem arming_strategy_priority (s : State) (cb : Callback) (ctx : Ref) (h : Host) :
  reachable s -> initialized (dev s) = false -> _monitor (fn s) = false ->
  dev (next (whenReady cb ctx false h s)) = dev s /\
  _monitor (fn (next (whenReady cb ctx false h s))) = true /\
  pending (next (whenReady cb ctx false h s)) = pending s ++ [(cb, ctx)] /\
  threw (whenReady cb ctx false h s) = false /\
  (readyState h = "complete" \/ readyState h = "interactive" ->
   emitted (whenReady cb ctx false h s) = [SetTimeout 0]) /\
  (readyState h <> "complete" -> readyState h <> "interactive" ->
   cordova h = true -> cocoonJS h = false ->
   emitted (whenReady cb ctx false h s) = [AddEventListener Document "deviceready"]) /\
  (readyState h <> "complete" -> readyState h <> "interactive" ->
   cordova h = false \/ cocoonJS h = true ->
   emitted (whenReady cb ctx false h s)
   = [AddEventListener Document "DOMContentLoaded"; AddEventListener Window "load"]) /\
  (forall h', body h' = true ->
     probe_runs (emitted (_readyCheck h' (next (whenReady cb ctx false h s)))) = 1%nat).
Proof.
  intros Hr Hi Hm.
  destruct (not_initialized_before_ready s Hr Hi) as (Hs & Hp & Hz).
  pose proof (whenReady_consistent cb ctx false h s Hs) as Hs'.
  set (s' := {| dev := dev s; fn := push cb ctx (bind_monitor (fn s)) |}).
  assert (whenReady cb ctx false h s
          = returns s'
              (if String.eqb (readyState h) "complete"
                  || String.eqb (readyState h) "interactive"
               then [SetTimeout 0]
               else if cordova h && negb (cocoonJS h)
                    then [AddEventListener Document "deviceready"]
                    else [AddEventListener Document "DOMContentLoaded";
                          AddEventListener Window "load"])) as Hw.
  { unfold whenReady. rewrite (truthy_0 _ Hz), Hp, Hm. simpl. by repeat case_match. }
  rewrite Hw in *. cbn [next emitted threw returns] in *.
  split; [done|]. split; [done|]. split; [done|]. split; [done|].
  split; [|split; [|split]].
  - intros [-> | ->]; [done|].
    by destruct (String.eqb "interactive" "complete").
  - intros Ec%String.eqb_neq Ei%String.eqb_neq -> ->. by rewrite Ec, Ei.
  - intros Ec%String.eqb_neq Ei%String.eqb_neq Hor. rewrite Ec, Ei. simpl.
    destruct Hor as [-> | ->]; [done | by rewrite andb_false_r].
  - intros h' Hb'.
    rewrite (_readyCheck_transition h' s' (pending s ++ [(cb, ctx)]) Hb' Hs') by done.
    change (emitted _)
      with ((detach ++ [Probes; Dispatch]) ++ (notify <$> pending s ++ [(cb, ctx)])).
    by rewrite probe_runs_app, probe_runs_notify.
Qed.

Lemma arming_strategy_priority_witness :
  reachable init /\
  emitted (whenReady 7%nat RefUndefined false parsed init) = [SetTimeout 0] /\
  initialized (dev (next (whenReady 7%nat RefUndefined false parsed init))) = false.
Proof.
  split; [apply reach_init|].
  destruct (arming_strategy_priority init 7%nat RefUndefined parsed reach_init)
    as (Hd & _ & _ & _ & H1 & _).
  - reflexivity.
  - reflexivity.
  - split; [apply H1; right; reflexivity | by rewrite Hd].
Defined.


(** *** Claims about the media queries *)

Lemma flag_false_of (d : Device) (fs : list string) (f : string) :
  (forall f', f' ∈ fs -> flag d f' = false) -> f ∈ fs -> flag d f = false.
Proof. auto. Qed.

(** C9: [canPlayAudio] and [canPlayVideo] are functions of the device's
    flags and the requested kind that return a boolean and nothing else,
    so they cannot change the registry; they answer [false] for every
    kind outside their enumeration, and for every kind of the
    enumeration all of whose flags are false. *)
Theorem media_queries_false_when_unknown_or_undetected
    (d : Device) (type : string) (fs : list string) :
  (type ∉ audio_kinds.*1 -> canPlayAudio d type = false) /\
  (type ∉ video_kinds.*1 -> canPlayVideo d type = false) /\
  ((type, fs) ∈ audio_kinds -> (forall f, f ∈ fs -> flag d f = false) ->
   canPlayAudio d type = false) /\
  ((type, fs) ∈ video_kinds -> (forall f, f ∈ fs -> flag d f = false) ->
   canPlayVideo d type = false).
Proof.
  repeat split.
  - intros H. unfold canPlayAudio.
    repeat match goal with
           | |- context [String.eqb type ?k] =>
               destruct (String.eqb_spec type k) as [->|?];
               [exfalso; apply H; simpl; set_solver|]
           end.
    done.
  - intros H. unfold canPlayVideo.
    repeat match goal with
           | |- context [String.eqb type ?k] =>
               destruct (String.eqb_spec type k) as [->|?];
               [exfalso; apply H; simpl; set_solver|]
           end.
    done.
  - intros Hin Hf. unfold audio_kinds in Hin.
    repeat (apply elem_of_cons in Hin as [[= -> ->]|Hin]);
      try (by apply elem_of_nil in Hin);
      unfold canPlayAudio; simpl;
      rewrite ?(flag_false_of d _ _ Hf) by set_solver; done.
  - intros Hin Hf. unfold video_kinds in Hin.
    repeat (apply elem_of_cons in Hin as [[= -> ->]|Hin]);
      try (by apply elem_of_nil in Hin);
      unfold canPlayVideo; simpl;
      rewrite ?(flag_false_of d _ _ Hf) by set_solver; done.
Qed.

Lemma media_queries_false_when_unknown_or_undetected_witness :
  canPlayAudio (dev ready) "flac" = false /\
  canPlayVideo (dev ready) "avi" = false /\
  canPlayAudio (dev ready) "ogg" = false /\
  canPlayVideo (dev ready) "mp4" = false.
Proof.
  destruct (media_queries_false_when_unknown_or_undetected (dev ready) "flac" [])
    as (Ha & _ & _ & _).
  destruct (media_queries_false_when_unknown_or_undetected (dev ready) "avi" [])
    as (_ & Hv & _ & _).
  destruct (media_queries_false_when_unknown_or_undetected (dev ready) "ogg" ["ogg"; "opus"])
    as (_ & _ & Ho & _).
  destruct (media_queries_false_when_unknown_or_undetected
              (dev ready) "mp4" ["mp4Video"; "h264Video"])
    as (_ & _ & _ & Hm).
  split; [apply Ha; apply (bool_decide_unpack _); vm_compute; exact I|].
  split; [apply Hv; apply (bool_decide_unpack _); vm_compute; exact I|].
  split.
  - apply Ho; [repeat constructor|].
    intros f Hf. repeat (apply elem_of_cons in Hf as [->|Hf]); try reflexivity.
    by apply elem_of_nil in Hf.
  - apply Hm; [repeat constructor|].
    intros f Hf. repeat (apply elem_of_cons in Hf as [->|Hf]); try reflexivity.
    by apply elem_of_nil in Hf.
Defined.

(** C10: the queries accept aliases.  [canPlayAudio('ogg')] is true as
    soon as the [ogg] or the [opus] flag is set; [canPlayVideo] answers
    both ['ogg'] and ['ogv'] with the [oggVideo] flag, ['webm'] with
    [webmVideo] or [vp9Video], ['mp4'] with [mp4Video] or [h264Video], and
    ['mpeg'] with the [hlsVideo] flag. *)
Theorem media_queries_accept_aliases (d : Device) :
  canPlayAudio d "ogg" = flag d "ogg" || flag d "opus" /\
  canPlayVideo d "ogg" = flag d "oggVideo" /\
  canPlayVideo d "ogv" = flag d "oggVideo" /\
  canPlayVideo d "webm" = flag d "webmVideo" || flag d "vp9Video" /\
  canPlayVideo d "mp4" = flag d "mp4Video" || flag d "h264Video" /\
  canPlayVideo d "mpeg" = flag d "hlsVideo".
Proof.
  unfold canPlayAudio, canPlayVideo. simpl.
  repeat split; repeat case_match; done.
Qed.

(** *** Whole runs of the registry *)

Lemma init_orderly : orderly init.
Proof. by repeat split. Qed.

Lemma orderly_push cb ctx f s :
  truthy (deviceReadyAt (dev s)) = false -> p_readyCheck (dev s) = true ->
  orderly s -> default [] (_queue f) = pending s ->
  orderly {| dev := dev s; fn := push cb ctx f |} /\
  (notified <$> pending {| dev := dev s; fn := push cb ctx f |})
  = (notified <$> pending s) ++ [(cb, ctx, RefDevice)].
Proof.
  intros Ht Hc (Hi & Ho & _) Hf. split.
  - unfold orderly, settled. simpl. repeat split; try done.
    intros [?|?]; congruence.
  - unfold pending at 1. simpl. rewrite Hf. by rewrite fmap_app.
Qed.

Lemma whenReady_orderly cb ctx np h s :
  orderly s ->
  orderly (next (whenReady cb ctx np h s)) /\
  calls (emitted (whenReady cb ctx np h s))
    ++ (notified <$> pending (next (whenReady cb ctx np h s)))
  = (notified <$> pending s) ++ [(cb, ctx, RefDevice)].
Proof.
  intros Hs. pose proof Hs as (_ & _ & Hp). unfold whenReady.
  destruct (decide (truthy (deviceReadyAt (dev s)) = true)) as [Ht|Ht].
  { rewrite Ht. simpl. rewrite (Hp (or_introl Ht)). done. }
  apply not_true_is_false in Ht.
  destruct (decide (p_readyCheck (dev s) = false)) as [Hc|Hc].
  { rewrite Ht, Hc. simpl. rewrite (Hp (or_intror Hc)). done. }
  apply not_false_is_true in Hc. rewrite Ht, Hc. simpl.
  repeat case_match; simpl; by apply orderly_push.
Qed.

Lemma _readyCheck_orderly h s :
  orderly s ->
  orderly (next (_readyCheck h s)) /\
  calls (emitted (_readyCheck h s)) ++ (notified <$> pending (next (_readyCheck h s)))
  = notified <$> pending s.
Proof.
  intros Hs. pose proof Hs as (Hi & Ho & Hp). unfold _readyCheck.
  destruct (body h); simpl; cycle 1.
  { by destruct (p_readyCheck (dev s)). }
  destruct (decide (truthy (deviceReadyAt (dev s)) = true)) as [Ht|Ht].
  { rewrite Ht. done. }
  apply not_true_is_false in Ht. rewrite Ht. simpl.
  pose proof (_initialize_unchanged h (set_deviceReadyAt (now h) (dev s)))
    as (_ & _ & Hu1 & Hu2 & Hu3). simpl in Hu1, Hu2, Hu3.
  destruct (decide (p_readyCheck (dev s) = false)) as [Hc|Hc].
  { rewrite Hc. simpl. assert (pending s = []) as Hnil by (apply Hp; by right).
    split; [|done].
    unfold orderly, settled. simpl. by repeat split. }
  apply not_false_is_true in Hc. rewrite Hc, Hi, Ho, Hc. simpl.
  destruct (_queue (fn s)) as [q|] eqn:Hq.
  - rewrite drain_spec. simpl. split; [by repeat split|].
    unfold pending. rewrite Hq. simpl. by rewrite calls_notify, app_nil_r.
  - simpl. split.
    + unfold orderly, settled, pending. simpl. rewrite Hu1, Hu2, Hu3, Hq.
      repeat split; congruence.
    + unfold pending. simpl. by rewrite Hq.
Qed.

(** One call keeps the run orderly, and adds its subscriber either to the
    notifications or to the queue. *)
Lemma step_orderly op s :
  orderly s ->
  orderly (next (step op s)) /\
  calls (emitted (step op s)) ++ (notified <$> pending (next (step op s)))
  = (notified <$> pending s) ++ (notified <$> subscribers [op]).
Proof.
  intros Hs. destruct op as [cb ctx np h|h]; simpl.
  - by apply whenReady_orderly.
  - rewrite app_nil_r. by apply _readyCheck_orderly.
Qed.






(** X3: subscriptions made with [nonPrimer] true never start the device.
    After any number of them on the fresh registry nothing has been handed
    to the host, no monitor is bound, the device is untouched, and the
    subscribers sit in the queue in call order, waiting for a priming
    subscription. *)
Theorem deferred_subscriptions_never_arm (xs : list Subscription) :
  Forall (fun x => nonPrimer x = true) xs ->
  (run (subscribe <$> xs) init).2 = [] /\
  dev (run (subscribe <$> xs) init).1 = dev init /\
  _monitor (fn (run (subscribe <$> xs) init).1) = false /\
  pending (run (subscribe <$> xs) init).1 = item <$> xs.
Proof.
  intros Hxs.
  assert (forall s, deviceReadyAt (dev s) = 0 -> p_readyCheck (dev s) = true ->
            _monitor (fn s) = false ->
            (run (subscribe <$> xs) s).2 = [] /\
            dev (run (subscribe <$> xs) s).1 = dev s /\
            _monitor (fn (run (subscribe <$> xs) s).1) = false /\
            pending (run (subscribe <$> xs) s).1 = pending s ++ (item <$> xs)) as Hgen.
  { induction Hxs as [|x xs Hx _ IH]; intros s Hz Hp Hm.
    - simpl. by rewrite app_nil_r.
    - assert (whenReady (callback x) (context x) (nonPrimer x) (host x) s
              = returns {| dev := dev s; fn := push (callback x) (context x) (fn s) |} [])
        as Hw.
      { unfold whenReady. by rewrite (truthy_0 _ Hz), Hp, Hx, orb_true_r. }
      rewrite fmap_cons.
      change (run (subscribe x :: (subscribe <$> xs)) s).1
        with (run (subscribe <$> xs) (next (step (subscribe x) s))).1.
      change (run (subscribe x :: (subscribe <$> xs)) s).2
        with (emitted (step (subscribe x) s)
                ++ (run (subscribe <$> xs) (next (step (subscribe x) s))).2).
      change (step (subscribe x) s)
        with (whenReady (callback x) (context x) (nonPrimer x) (host x) s).
      rewrite Hw. simpl.
      destruct (IH {| dev := dev s; fn := push (callback x) (context x) (fn s) |})
        as (E1 & E2 & E3 & E4); [done..|].
      rewrite E1, E2, E3, E4. repeat split; try done.
      unfold pending. simpl. by rewrite <- app_assoc. }
  by apply Hgen.
Qed.

Lemma deferred_subscriptions_never_arm_witness :
  (run (subscribe <$> [ {| callback := 1%nat; context := RefUndefined; nonPrimer := true;
                          host := parsed |};
                       {| callback := 2%nat; context := RefObject 4; nonPrimer := true;
                          host := loading |} ]) init).2 = [] /\
  _monitor (fn (run (subscribe <$> [ {| callback := 1%nat; context := RefUndefined;
                                       nonPrimer := true; host := parsed |};
                                    {| callback := 2%nat; context := RefObject 4;
                                       nonPrimer := true; host := loading |} ]) init).1)
  = false.
Proof.
  destruct (deferred_subscriptions_never_arm
              [ {| callback := 1%nat; context := RefUndefined; nonPrimer := true;
                   host := parsed |};
                {| callback := 2%nat; context := RefObject 4; nonPrimer := true;
                   host := loading |} ]) as (H1 & _ & H3 & _).
  - repeat constructor.
  - split; [exact H1 | exact H3].
Defined.

Lemma probe_runs_cons e l :
  probe_runs (e :: l) = ((if is_probe e then 1 else 0) + probe_runs l)%nat.
Proof.
  unfold probe_runs. rewrite filter_cons.
  destruct (is_probe e); case_decide; simpl; congruence.
Qed.

Lemma probe_runs_nil : probe_runs [] = 0%nat.
Proof. reflexivity. Qed.

(** A settled registry runs no probe, and stays settled. *)
Lemma step_settled op s :
  orderly s -> settled s -> clock_ok op ->
  settled (next (step op s)) /\ probe_runs (emitted (step op s)) = 0%nat.
Proof.
  intros (Hi & Ho & _) Hs Hc. destruct op as [cb ctx np h|h]; simpl.
  - unfold whenReady, settled in *.
    destruct Hs as [Ht|Hp]; [rewrite Ht | rewrite Hp, orb_true_r]; simpl; auto.
  - unfold _readyCheck. simpl in Hc.
    destruct (body h); simpl; [|by destruct (p_readyCheck (dev s)) eqn:?].
    destruct (decide (truthy (deviceReadyAt (dev s)) = true)) as [Ht|Ht].
    { rewrite Ht. done. }
    apply not_true_is_false in Ht. rewrite Ht. simpl.
    destruct Hs as [?|Hp]; [congruence|]. rewrite Hp. simpl.
    split; [|done]. left. by apply truthy_nonzero.
Qed.

(** One call runs at most one probe pass, and a probe pass settles the
    registry. *)
Lemma step_probes op s :
  orderly s -> clock_ok op ->
  (probe_runs (emitted (step op s)) <= 1)%nat /\
  (probe_runs (emitted (step op s)) <> 0%nat -> settled (next (step op s))).
Proof.
  intros (Hi & Ho & _) Hc. destruct op as [cb ctx np h|h]; simpl.
  - unfold whenReady.
    repeat case_match; simpl; rewrite ?probe_runs_cons, ?probe_runs_nil; simpl;
      split; (lia || done).
  - unfold _readyCheck. simpl in Hc.
    pose proof (_initialize_unchanged h (set_deviceReadyAt (now h) (dev s)))
      as (Hu & _). simpl in Hu.
    destruct (body h); simpl;
      [|destruct (p_readyCheck (dev s)); simpl;
        rewrite ?probe_runs_cons, ?probe_runs_nil; simpl; split; (lia || done)].
    destruct (truthy (deviceReadyAt (dev s))); simpl;
      [rewrite ?probe_runs_nil; split; (lia || done)|].
    destruct (decide (p_readyCheck (dev s) = false)) as [Hp|Hp].
    { rewrite Hp. simpl. rewrite ?probe_runs_nil. split; (lia || done). }
    apply not_false_is_true in Hp. rewrite Hp, Hi, Ho, Hp. simpl.
    destruct (_queue (fn s)) as [q|]; simpl.
    + rewrite drain_spec. simpl.
      rewrite !probe_runs_cons, probe_runs_notify. simpl.
      split; [lia|]. intros _. by right.
    + rewrite !probe_runs_cons, probe_runs_nil. simpl.
      split; [lia|]. intros _. left. simpl. rewrite Hu. by apply truthy_nonzero.
Qed.

Lemma run_settled ops s :
  orderly s -> settled s -> Forall clock_ok ops -> probe_runs (run ops s).2 = 0%nat.
Proof.
  intros Ho Hs Hops. revert s Ho Hs.
  induction Hops as [|op ops Hc _ IH]; intros s Ho Hs; [done|].
  destruct (step_settled op s Ho Hs Hc) as [Hs' Hp].
  destruct (step_orderly op s Ho) as [Ho' _].
  change (run (op :: ops) s).2
    with (emitted (step op s) ++ (run ops (next (step op s))).2).
  by rewrite probe_runs_app, Hp, IH.
Qed.

(** X4: in every run from the fresh registry, however subscriptions and
    firings are interleaved and whether or not a body is present at each
    firing, the probe pass executes at most once, provided the clock never
    reads zero at a firing. *)
Theorem probes_run_at_most_once_in_any_run (ops : list Op) :
  Forall clock_ok ops -> (probe_runs (run ops init).2 <= 1)%nat.
Proof.
  intros Hops.
  assert (forall s, orderly s -> (probe_runs (run ops s).2 <= 1)%nat) as Hgen.
  { induction Hops as [|op ops Hc Hops IH]; intros s Ho;
      [change (run [] s).2 with (@nil Event); rewrite probe_runs_nil; lia|].
    destruct (step_probes op s Ho Hc) as [Hle Hset].
    destruct (step_orderly op s Ho) as [Ho' _].
    change (run (op :: ops) s).2
      with (emitted (step op s) ++ (run ops (next (step op s))).2).
    rewrite probe_runs_app.
    destruct (decide (probe_runs (emitted (step op s)) = 0%nat)) as [E|E].
    - rewrite E. by apply IH.
    - rewrite (run_settled ops _ Ho' (Hset E) Hops). lia. }
  apply Hgen, init_orderly.
Qed.

Lemma probes_run_at_most_once_in_any_run_witness :
  (probe_runs (run [ OpFire parsed;
                     OpWhenReady 1%nat RefUndefined true loading;
                     OpFire loading;
                     OpWhenReady 2%nat RefUndefined false parsed;
                     OpFire parsed; OpFire parsed ] init).2 <= 1)%nat.
Proof.
  apply (probes_run_at_most_once_in_any_run
           [ OpFire parsed;
             OpWhenReady 1%nat RefUndefined true loading;
             OpFire loading;
             OpWhenReady 2%nat RefUndefined false parsed;
             OpFire parsed; OpFire parsed ]).
  repeat constructor; discriminate.
Defined.

(** *** What the probes write *)

Lemma bool_decide_elem_of_app (k : string) (l1 l2 : list string) :
  bool_decide (k ∈ l1 ++ l2) = bool_decide (k ∈ l1) || bool_decide (k ∈ l2).
Proof.
  destruct (decide (k ∈ l1)) as [H1|H1], (decide (k ∈ l2)) as [H2|H2];
    repeat first [ rewrite (bool_decide_eq_true_2 (k ∈ l1)) by done
                 | rewrite (bool_decide_eq_false_2 (k ∈ l1)) by done
                 | rewrite (bool_decide_eq_true_2 (k ∈ l2)) by done
                 | rewrite (bool_decide_eq_false_2 (k ∈ l2)) by done ];
    simpl;
    [ apply bool_decide_eq_true_2 | apply bool_decide_eq_true_2
    | apply bool_decide_eq_true_2 | apply bool_decide_eq_false_2 ];
    rewrite elem_of_app; tauto.
Qed.

Lemma flag_set_flag k' d k :
  flag (set_flag k' d) k = bool_decide (k = k') || flag d k.
Proof.
  unfold flag, set_flag. simpl. case_bool_decide as E.
  - subst. by rewrite lookup_insert_eq.
  - by rewrite lookup_insert_ne.
Qed.

Lemma flag_set_flags ks d k :
  flag (foldl (fun acc k' => set_flag k' acc) d ks) k = flag d k || bool_decide (k ∈ ks).
Proof.
  revert d. induction ks as [|k' ks IH]; intros d; simpl.
  - by rewrite orb_false_r.
  - rewrite IH, flag_set_flag.
    destruct (decide (k = k')) as [->|Hne].
    + rewrite bool_decide_eq_true_2 by done.
      rewrite (bool_decide_eq_true_2 (k' ∈ k' :: ks)) by left.
      by rewrite orb_true_r.
    + rewrite (bool_decide_eq_false_2 (k = k')) by done. simpl.
      f_equal. apply bool_decide_ext. rewrite elem_of_cons. tauto.
Qed.

Lemma flag_try_block steps d k :
  flag (try_block steps d) k = flag d k || bool_decide (k ∈ fired steps).
Proof.
  revert d. induction steps as [|[[c|] ks] steps IH]; intros d; cbn [try_block fired].
  - rewrite bool_decide_eq_false_2; [by rewrite orb_false_r | apply not_elem_of_nil].
  - rewrite IH. destruct c; simpl; [|done].
    by rewrite flag_set_flags, bool_decide_elem_of_app, orb_assoc.
  - rewrite bool_decide_eq_false_2; [by rewrite orb_false_r | apply not_elem_of_nil].
Qed.

Lemma _checkAudio_steps h d :
  _checkAudio h d
  = match audio_canPlayType h with
    | Some ct => try_block (audio_steps ct) d
    | None => d
    end.
Proof. reflexivity. Qed.

Lemma _checkVideo_steps h d :
  _checkVideo h d
  = match video_canPlayType h with
    | Some ct => try_block (video_steps ct) d
    | None => d
    end.
Proof. reflexivity. Qed.

(** A flag is set after the probe pass when it was set before or the pass
    sets it. *)
Lemma flag__initialize h d k :
  flag (_initialize h d) k = flag d k || bool_decide (k ∈ probed h).
Proof.
  unfold _initialize, probed. rewrite _checkVideo_steps, _checkAudio_steps.
  rewrite bool_decide_elem_of_app.
  destruct (audio_canPlayType h) as [cta|], (video_canPlayType h) as [ctv|];
    rewrite ?flag_try_block, ?orb_assoc;
    rewrite ?(bool_decide_eq_false_2 (k ∈ [])) by apply not_elem_of_nil;
    by rewrite ?orb_false_r.
Qed.

(** A block only sets flags that one of its steps names. *)
Lemma fired_subseteq steps k : k ∈ fired steps -> k ∈ concat (snd <$> steps).
Proof.
  induction steps as [|[[c|] ks] steps IH]; simpl; [done| |by intros ?%elem_of_nil].
  rewrite !elem_of_app. intros [H|H]; [|right; by apply IH].
  destruct c; [by left | by apply elem_of_nil in H].
Qed.

Lemma fired_audio ct k : k ∈ fired (audio_steps ct) -> k ∈ audio_flags.
Proof.
  intros H%fired_subseteq. simpl in H.
  repeat (apply elem_of_cons in H as [->|H]); try (by apply elem_of_nil in H);
    apply (bool_decide_unpack _); vm_compute; exact I.
Qed.

Lemma fired_video ct k : k ∈ fired (video_steps ct) -> k ∈ video_flags.
Proof.
  intros H%fired_subseteq. simpl in H.
  repeat (apply elem_of_cons in H as [->|H]); try (by apply elem_of_nil in H);
    apply (bool_decide_unpack _); vm_compute; exact I.
Qed.

Lemma audio_video_disjoint k : k ∈ audio_flags -> k ∈ video_flags -> False.
Proof.
  intros Ha Hv. unfold audio_flags in Ha.
  repeat (apply elem_of_cons in Ha as [->|Ha]); try (by apply elem_of_nil in Ha);
    revert Hv; apply (bool_decide_unpack _); vm_compute; exact I.
Qed.


Lemma flag_new_Device k : flag new_Device k = false.
Proof.
  unfold flag. destruct (flags new_Device !! k) as [b|] eqn:E; [|done].
  apply elem_of_list_to_map_2 in E. simpl in E.
  repeat (apply elem_of_cons in E as [[= _ <-]|E]); try done.
  by apply elem_of_nil in E.
Qed.

Lemma cleaned_affirms ct mime : answers ct -> cleaned ct mime = Some (affirms ct mime).
Proof.
  intros Hans. destruct (Hans mime) as [s Hs]. unfold cleaned, affirms. rewrite Hs. simpl.
  f_equal. destruct (String.eqb_spec s "no") as [->|Hno]; [done|].
  by rewrite andb_true_r.
Qed.

Lemma cleaned_throws ct mime : ct mime = None -> cleaned ct mime = None.
Proof. intros H. unfold cleaned. by rewrite H. Qed.

(** The video probe sets no audio flag and the audio probe no video flag. *)
Lemma video_sets_no_audio h k :
  k ∈ audio_flags ->
  bool_decide (k ∈ match video_canPlayType h with
                   | Some ct => fired (video_steps ct)
                   | None => []
                   end) = false.
Proof.
  intros Ha. apply bool_decide_eq_false_2. intros Hin.
  destruct (video_canPlayType h); [|by apply elem_of_nil in Hin].
  eapply audio_video_disjoint; [exact Ha | by eapply fired_video].
Qed.

Lemma audio_sets_no_video h k :
  k ∈ video_flags ->
  bool_decide (k ∈ match audio_canPlayType h with
                   | Some ct => fired (audio_steps ct)
                   | None => []
                   end) = false.
Proof.
  intros Hv. apply bool_decide_eq_false_2. intros Hin.
  destruct (audio_canPlayType h); [|by apply elem_of_nil in Hin].
  eapply audio_video_disjoint; [by eapply fired_audio | exact Hv].
Qed.

(** X6: the two media probes do not disturb each other.  What the probe
    pass makes of an audio flag depends on the audio element alone, even
    when the video element throws, and what it makes of a video flag
    depends on the video element alone. *)
Theorem media_probes_are_independent (h h' : Host) (d : Device) (k : string) :
  (k ∈ audio_flags -> audio_canPlayType h = audio_canPlayType h' ->
   flag (_initialize h d) k = flag (_initialize h' d) k) /\
  (k ∈ video_flags -> video_canPlayType h = video_canPlayType h' ->
   flag (_initialize h d) k = flag (_initialize h' d) k).
Proof.
  split; intros Hk E; rewrite !flag__initialize; f_equal;
    unfold probed; rewrite !bool_decide_elem_of_app, E.
  - by rewrite !video_sets_no_audio.
  - by rewrite !audio_sets_no_video.
Qed.

Lemma media_probes_are_independent_witness :
  flag (_initialize parsed new_Device) "mp3"
  = flag (_initialize parsed_without_quicktime new_Device) "mp3".
Proof.
  destruct (media_probes_are_independent parsed parsed_without_quicktime new_Device "mp3")
    as [Ha _].
  apply Ha; [|reflexivity].
  apply (bool_decide_unpack _). vm_compute. exact I.
Defined.

(** X7: what [canPlayAudio] answers after the probe pass on a fresh device
    whose audio element answers every question with a string.  A kind is
    playable when the element said yes (anything but the empty string and
    ["no"]) to its MIME type; ['ogg'] also when it said yes to Opus, under
    either of its two MIME types; and ['m4a'] when it gave any non-empty
    answer, ["no"] included, to [audio/x-m4a;], or said yes to
    [audio/aac;]. *)
Theorem canPlayAudio_after_probes (h : Host) (ct : string -> option string) :
  audio_canPlayType h = Some ct -> answers ct ->
  canPlayAudio (_initialize h new_Device) "mp3" = affirms ct "audio/mpeg;" /\
  canPlayAudio (_initialize h new_Device) "wav" = affirms ct (codec "audio/wav" "1") /\
  canPlayAudio (_initialize h new_Device) "webm" = affirms ct (codec "audio/webm" "vorbis") /\
  canPlayAudio (_initialize h new_Device) "opus"
  = affirms ct (codec "audio/ogg" "opus") || affirms ct "audio/opus;" /\
  canPlayAudio (_initialize h new_Device) "ogg"
  = affirms ct (codec "audio/ogg" "vorbis")
    || (affirms ct (codec "audio/ogg" "opus") || affirms ct "audio/opus;") /\
  canPlayAudio (_initialize h new_Device) "m4a"
  = raw ct "audio/x-m4a;" || affirms ct "audio/aac;".
Proof.
  intros Hct Hans.
  assert (forall k, k ∈ audio_flags ->
            flag (_initialize h new_Device) k = bool_decide (k ∈ fired (audio_steps ct)))
    as Hflag.
  { intros k Hk. rewrite flag__initialize, flag_new_Device. unfold probed.
    by rewrite bool_decide_elem_of_app, video_sets_no_audio, Hct, orb_false_r. }
  assert (forall k, k ∈ audio_flags <-> bool_decide (k ∈ audio_flags) = true) as Hdec.
  { intros k. split; [apply bool_decide_eq_true_2 | apply bool_decide_eq_true_1]. }
  unfold canPlayAudio. simpl.
  rewrite !Hflag by (apply Hdec; vm_compute; reflexivity).
  unfold audio_steps. rewrite !(cleaned_affirms ct _ Hans).
  generalize (affirms ct "audio/mpeg;") (affirms ct (codec "audio/wav" "1"))
             (affirms ct (codec "audio/webm" "vorbis")) (affirms ct (codec "audio/ogg" "opus"))
             (affirms ct "audio/opus;") (affirms ct (codec "audio/ogg" "vorbis"))
             (raw ct "audio/x-m4a;") (affirms ct "audio/aac;").
  intros b1 b2 b3 b4 b5 b6 b7 b8.
  destruct b1, b2, b3, b4, b5, b6, b7, b8; vm_compute; repeat split.
Qed.

Lemma canPlayAudio_after_probes_witness :
  canPlayAudio (_initialize parsed new_Device) "mp3" = true /\
  canPlayAudio (_initialize parsed new_Device) "ogg" = false.
Proof.
  destruct (canPlayAudio_after_probes parsed
              (fun m => Some (if String.eqb m "audio/mpeg;" then "probably" else "")))
    as (H1 & _ & _ & _ & H2 & _).
  - reflexivity.
  - intros m. by eexists.
  - split; [rewrite H1 | rewrite H2]; reflexivity.
Defined.

(** X8: what [canPlayVideo] answers after the probe pass on a fresh device
    whose video element answers every question with a string: each kind is
    playable exactly when the element said yes to (one of) its MIME
    types. *)
Theorem canPlayVideo_after_probes (h : Host) (ct : string -> option string) :
  video_canPlayType h = Some ct -> answers ct ->
  canPlayVideo (_initialize h new_Device) "ogg" = affirms ct (codec "video/ogg" "theora") /\
  canPlayVideo (_initialize h new_Device) "ogv" = affirms ct (codec "video/ogg" "theora") /\
  canPlayVideo (_initialize h new_Device) "mp4" = affirms ct (codec "video/mp4" "avc1.42E01E") /\
  canPlayVideo (_initialize h new_Device) "webm"
  = affirms ct (codec "video/webm" "vp8, vorbis") || affirms ct (codec "video/webm" "vp9") /\
  canPlayVideo (_initialize h new_Device) "mpeg"
  = affirms ct (codec "application/x-mpegURL" "avc1.42E01E").
Proof.
  intros Hct Hans.
  assert (forall k, k ∈ video_flags ->
            flag (_initialize h new_Device) k = bool_decide (k ∈ fired (video_steps ct)))
    as Hflag.
  { intros k Hk. rewrite flag__initialize, flag_new_Device. unfold probed.
    by rewrite bool_decide_elem_of_app, audio_sets_no_video, Hct. }
  assert (forall k, k ∈ video_flags <-> bool_decide (k ∈ video_flags) = true) as Hdec.
  { intros k. split; [apply bool_decide_eq_true_2 | apply bool_decide_eq_true_1]. }
  unfold canPlayVideo. simpl.
  rewrite !Hflag by (apply Hdec; vm_compute; reflexivity).
  unfold video_steps. rewrite !(cleaned_affirms ct _ Hans).
  generalize (affirms ct (codec "video/ogg" "theora"))
             (affirms ct (codec "video/mp4" "avc1.42E01E"))
             (affirms ct (codec "video/webm" "vp8, vorbis"))
             (affirms ct (codec "video/webm" "vp9"))
             (affirms ct (codec "application/x-mpegURL" "avc1.42E01E")).
  intros b1 b2 b3 b4 b5.
  destruct b1, b2, b3, b4, b5; vm_compute; repeat split.
Qed.

Lemma canPlayVideo_after_probes_witness :
  canPlayVideo (_initialize parsed new_Device) "webm" = true /\
  canPlayVideo (_initialize parsed new_Device) "mp4" = false.
Proof.
  destruct (canPlayVideo_after_probes parsed
              (fun m => Some (if String.eqb m (codec "video/webm" "vp8, vorbis")
                              then "maybe" else "no")))
    as (_ & _ & H1 & H2 & _).
  - reflexivity.
  - intros m. by eexists.
  - split; [rewrite H2 | rewrite H1]; reflexivity.
Defined.

(** X9: the video probe stops at the first answer that is not a string.  On
    a fresh device whose video element answers the H.264 question with a
    non-string (a host without QuickTime), MP4 is not playable, and neither
    are WebM and HLS, whatever the element says about them: their questions
    are never asked. *)
Theorem video_probe_stops_at_non_string (h : Host) (ct : string -> option string) :
  video_canPlayType h = Some ct -> ct (codec "video/mp4" "avc1.42E01E") = None ->
  canPlayVideo (_initialize h new_Device) "mp4" = false /\
  canPlayVideo (_initialize h new_Device) "webm" = false /\
  canPlayVideo (_initialize h new_Device) "mpeg" = false.
Proof.
  intros Hct Hnone.
  assert (forall k, k ∈ video_flags ->
            flag (_initialize h new_Device) k = bool_decide (k ∈ fired (video_steps ct)))
    as Hflag.
  { intros k Hk. rewrite flag__initialize, flag_new_Device. unfold probed.
    by rewrite bool_decide_elem_of_app, audio_sets_no_video, Hct. }
  assert (forall k, k ∈ video_flags <-> bool_decide (k ∈ video_flags) = true) as Hdec.
  { intros k. split; [apply bool_decide_eq_true_2 | apply bool_decide_eq_true_1]. }
  unfold canPlayVideo. simpl.
  rewrite !Hflag by (apply Hdec; vm_compute; reflexivity).
  unfold video_steps. rewrite (cleaned_throws ct _ Hnone).
  destruct (cleaned ct (codec "video/ogg" "theora")) as [[]|];
    vm_compute; repeat split.
Qed.

Lemma video_probe_stops_at_non_string_witness :
  canPlayVideo (_initialize parsed_without_quicktime new_Device) "webm" = false.
Proof.
  destruct (video_probe_stops_at_non_string parsed_without_quicktime
              (fun m => if String.eqb m (codec "video/mp4" "avc1.42E01E")
                        then None else Some "probably"))
    as (_ & H & _); [reflexivity | reflexivity | exact H].
Defined.

End DeviceFacts.

(* ===================================================================== *)
(** ** Properties of the frame scheduler *)
(* ===================================================================== *)

Section SchedulerFacts.

Import RequestAnimationFrame.

(** [start] always returns: the frame function it calls is the one it has
    just found on [window]. *)
Lemma start_fallback w :
  "requestAnimationFrame" ∉ window w \/ forceSetTimeOut (raf w) = true ->
  start w
  = Some (set_timeOutID (next_id w)
            (setTimeout (Some LoopSetTimeout) 0
               (set_path true LoopSetTimeout (set_isRunning true w))).2).
Proof.
  intros H. unfold start. simpl.
  destruct (bool_decide_reflect ("requestAnimationFrame" ∈ window w)) as [Hin|Hin];
    destruct (forceSetTimeOut (raf w)); simpl; try done.
  destruct H; done.
Qed.

Lemma start_preferred w :
  "requestAnimationFrame" ∈ window w -> forceSetTimeOut (raf w) = false ->
  start w
  = Some (set_timeOutID (next_id w)
            (fresh (with_frames (<[next_id w := Some LoopRAF]> (frames w))
                      (record (RequestFrame (next_id w) (Some LoopRAF))
                         (set_path false LoopRAF (set_isRunning true w)))))).
Proof.
  intros Hin Hf. unfold start, requestAnimationFrame. simpl.
  rewrite Hf. rewrite (bool_decide_eq_true_2 _ Hin). simpl.
  by rewrite (decide_True _ _ Hin).
Qed.

(** What [start] does, on either path. *)
Lemma start_spec (w : World) :
  exists w', start w = Some w' /\
    isRunning (raf w') = true /\
    (isSetTimeOut w' = true <->
     "requestAnimationFrame" ∉ window w \/ forceSetTimeOut (raf w) = true) /\
    isRAF w' = negb (isSetTimeOut w') /\
    (if isSetTimeOut w'
     then log w' = log w ++ [SetTimeout (next_id w) (Some LoopSetTimeout) 0] /\
          timers w' = <[next_id w := Some LoopSetTimeout]> (timers w) /\
          frames w' = frames w
     else log w' = log w ++ [RequestFrame (next_id w) (Some LoopRAF)] /\
          frames w' = <[next_id w := Some LoopRAF]> (frames w) /\
          timers w' = timers w).
Proof.
  destruct (decide ("requestAnimationFrame" ∈ window w)) as [Hin|Hin];
    destruct (forceSetTimeOut (raf w)) eqn:Hf.
  - eexists. split; [apply start_fallback; by right|]. simpl.
    repeat split; try done. by right.
  - eexists. split; [by apply start_preferred|]. simpl.
    repeat split; try done. intros [?|?]; done.
  - eexists. split; [apply start_fallback; by left|]. simpl.
    repeat split; try done. by left.
  - eexists. split; [apply start_fallback; by left|]. simpl.
    repeat split; try done. by left.
Qed.

(** *** The constructor's search for a prefixed frame function *)

Lemma assign_in dst src win k :
  k ∈ assign dst src win <-> (k = dst /\ src ∈ win) \/ (k <> dst /\ k ∈ win).
Proof.
  unfold assign. destruct (decide (src ∈ win)) as [Hs|Hs].
  - rewrite elem_of_union, elem_of_singleton. destruct (decide (k = dst)); tauto.
  - rewrite elem_of_difference, elem_of_singleton. destruct (decide (k = dst)); tauto.
Qed.

(** One round of the loop, on a [window] without the unprefixed function. *)
Lemma polyfill_round v win :
  "requestAnimationFrame" ∉ win ->
  "requestAnimationFrame"
  ∈ assign "cancelAnimationFrame" (v +:+ "CancelAnimationFrame")
      (assign "requestAnimationFrame" (v +:+ "RequestAnimationFrame") win)
  <-> v +:+ "RequestAnimationFrame" ∈ win.
Proof.
  intros Hin. rewrite !assign_in.
  assert ("requestAnimationFrame" <> "cancelAnimationFrame") by discriminate.
  tauto.
Qed.

Lemma polyfill_keeps v v' win :
  prefixed v' ->
  v' +:+ "RequestAnimationFrame"
  ∈ assign "cancelAnimationFrame" (v +:+ "CancelAnimationFrame")
      (assign "requestAnimationFrame" (v +:+ "RequestAnimationFrame") win)
  <-> v' +:+ "RequestAnimationFrame" ∈ win.
Proof. intros [H1 H2]. rewrite !assign_in. tauto. Qed.

Lemma polyfill_available vs win :
  Forall prefixed vs ->
  "requestAnimationFrame" ∈ polyfill vs win <->
  "requestAnimationFrame" ∈ win \/
  exists v, v ∈ vs /\ (v +:+ "RequestAnimationFrame") ∈ win.
Proof.
  intros Hvs. revert win. induction Hvs as [|v vs Hv Hvs IH]; intros win; simpl.
  - split; [tauto|]. intros [?|(v & Hv & _)]; [done|]. by apply elem_of_nil in Hv.
  - destruct (decide ("requestAnimationFrame" ∈ win)) as [Hin|Hin]; [tauto|].
    rewrite IH, (polyfill_round v win Hin).
    split.
    + intros [H | (v' & Hv' & H)]; right.
      * exists v. split; [left | done].
      * exists v'. split; [by right|].
        apply (polyfill_keeps v v' win); [|done]. by eapply Forall_forall in Hvs.
    + intros [? | (v' & Hv' & H)]; [done|]. apply elem_of_cons in Hv' as [-> | Hv'].
      * by left.
      * right. exists v'. split; [done|].
        apply (polyfill_keeps v v' win); [|done]. by eapply Forall_forall in Hvs.
Qed.

Lemma vendors_prefixed : Forall prefixed vendors.
Proof. repeat constructor; discriminate. Qed.

(** X13: a scheduler constructed on a host and started takes the timer
    path exactly when the host has neither the unprefixed frame request
    function nor one under the prefixes [ms], [moz], [webkit], [o], or when
    the constructor was told to force timers. *)
Lemma start_after_new force win ttc :
  exists w', start (new force win ttc) = Some w' /\
    (isSetTimeOut w' = true <->
     (("requestAnimationFrame" ∉ win) /\
      (forall v, v ∈ vendors -> v +:+ "RequestAnimationFrame" ∉ win)) \/
     force = Some true).
Proof.
  destruct (start_spec (new force win ttc)) as (w' & Hs & _ & Hiff & _).
  exists w'. split; [done|]. rewrite Hiff.
  change (window (new force win ttc)) with (polyfill vendors win).
  change (forceSetTimeOut (raf (new force win ttc))) with (default false force).
  rewrite (polyfill_available vendors win vendors_prefixed).
  split.
  - intros [Hno|Hf].
    + left. split; [tauto|]. intros v Hv Hin. apply Hno. right. by exists v.
    + right. by destruct force as [[]|].
  - intros [[Hno Hv]| ->]; [left | by right].
    intros [?|(v & ? & ?)]; [done|]. by eapply Hv.
Qed.

(** *** The model on concrete hosts *)

(** [stop()] called between two frames cancels the pending request: the
    host has nothing left to run and the driver is never invoked. *)
Example stop_between_frames :
  (fun w => (isRunning (raf w), map_to_list (frames w), log w))
    <$> ((start (new None native 16) ≫= stop) ≫= fire_frame idle (5 # 2) 0 1)
  = Some (false, [], [RequestFrame 1 (Some LoopRAF); CancelFrame (Some 1%nat)]).
Proof. vm_compute. reflexivity. Qed.

(** A host that only has [webkitRequestAnimationFrame] gets the unprefixed
    name from the constructor, and the scheduler takes the frame path. *)
Example webkit_prefixed :
  (fun w => (isSetTimeOut w, log w))
    <$> start (new None {["webkitRequestAnimationFrame"]} 16)
  = Some (false, [RequestFrame 1 (Some LoopRAF)]).
Proof. vm_compute. reflexivity. Qed.

(** On a host without any frame function the scheduler runs on timers.  A
    driver that calls [stop()] on its third invocation is still followed by
    a fourth timer, and runs a fourth time when the host fires it. *)
Example counter_driver_runs_a_fourth_time :
  (fun w => (isSetTimeOut w, isRunning (raf w), updates (log w)))
    <$> ((((start (new None bare 16) ≫= fire_timer (stop_at 3) 100 1)
             ≫= fire_timer (stop_at 3) 116 2)
            ≫= fire_timer (stop_at 3) 132 3)
           ≫= fire_timer (stop_at 3) 148 4)
  = Some (true, false, 4%nat).
Proof. vm_compute. reflexivity. Qed.

(** With an idle driver the frame loop goes on, one request per frame,
    the timestamp floored. *)
Example two_frames :
  log <$> ((start (new None native 16) ≫= fire_frame idle (33 # 2) 0 1)
             ≫= fire_frame idle (100 # 3) 0 2)
  = Some [ RequestFrame 1 (Some LoopRAF); Update (Millis 16);
           RequestFrame 2 (Some LoopRAF); Update (Millis 33);
           RequestFrame 3 (Some LoopRAF) ].
Proof. vm_compute. reflexivity. Qed.

(** *** Rescheduling after the driver returns *)

(** Whatever the driver did, [stop()] included, [updateRAF] issues a new
    frame request once the driver has returned. *)
Lemma updateRAF_reschedules (update : Driver) rafTime w w1 cb :
  update (floor rafTime) (record (Update (floor rafTime)) w) = Some w1 ->
  "requestAnimationFrame" ∈ window w1 -> _onLoop (raf w1) = Some cb ->
  exists w2, updateRAF update rafTime w = Some w2 /\
    log w2 = log w1 ++ [RequestFrame (next_id w1) (Some cb)] /\
    frames w2 !! next_id w1 = Some (Some cb) /\
    isRunning (raf w2) = isRunning (raf w1).
Proof.
  intros Hu Hin Hcb. unfold updateRAF, requestAnimationFrame. rewrite Hu. simpl.
  rewrite (decide_True _ _ Hin), Hcb. simpl.
  eexists. split; [done|]. simpl. by rewrite lookup_insert_eq.
Qed.

(** Likewise [updateSetTimeout] issues a new timer. *)
Lemma updateSetTimeout_reschedules (update : Driver) now w w1 :
  update (Millis now) (record (Update (Millis now)) w) = Some w1 ->
  exists w2, updateSetTimeout update now w = Some w2 /\
    log w2 = log w1 ++ [SetTimeout (next_id w1) (_onLoop (raf w1)) (timeToCall w1)] /\
    timers w2 !! next_id w1 = Some (_onLoop (raf w1)) /\
    isRunning (raf w2) = isRunning (raf w1).
Proof.
  intros Hu. unfold updateSetTimeout. rewrite Hu. simpl.
  eexists. split; [done|]. simpl. by rewrite lookup_insert_eq.
Qed.

(** C2 does not hold of this code.  On a host with the unprefixed frame
    functions the scheduler is started and its first frame runs a driver
    that calls [stop()]: [stop] cancels handle 1, which the host has
    already consumed, and clears [isRunning]; [updateRAF] then requests
    frame 2 all the same, so a scheduling request follows the stop, and
    when the host runs frame 2 the driver is invoked a second time.  The
    timer path, forced at construction, behaves in the same way. *)
Theorem stop_inside_driver_does_not_prevent_reschedule :
  (log <$> stopped_in_frame
   = Some [ RequestFrame 1 (Some LoopRAF); Update (Millis 2);
            CancelFrame (Some 1%nat); RequestFrame 2 (Some LoopRAF) ] /\
   (fun w => isRunning (raf w)) <$> stopped_in_frame = Some false /\
   (fun w => existsb is_schedule (after_stop (log w))) <$> stopped_in_frame = Some true /\
   (fun w => frames w !! 2%nat) <$> stopped_in_frame = Some (Some (Some LoopRAF)) /\
   (fun w => updates (log w)) <$> (stopped_in_frame ≫= fire_frame stopping (7 # 2) 0 2)
   = Some 2%nat) /\
  (log <$> stopped_in_timer
   = Some [ SetTimeout 1 (Some LoopSetTimeout) 0; Update (Millis 100);
            ClearTimeout (Some 1%nat); SetTimeout 2 (Some LoopSetTimeout) 16 ] /\
   (fun w => isRunning (raf w)) <$> stopped_in_timer = Some false /\
   (fun w => existsb is_schedule (after_stop (log w))) <$> stopped_in_timer = Some true /\
   (fun w => timers w !! 2%nat) <$> stopped_in_timer = Some (Some (Some LoopSetTimeout)) /\
   (fun w => updates (log w)) <$> (stopped_in_timer ≫= fire_timer stopping 116 2)
   = Some 2%nat).
Proof. repeat split; vm_compute; reflexivity. Qed.

(** C7: [start] returns with [isRunning] true; it takes the timer path
    exactly when [window.requestAnimationFrame] is undefined or
    [forceSetTimeOut] is set, in which case it issues one zero-delay
    [setTimeout] and no frame request, and otherwise issues one frame
    request and no timer; afterwards [isSetTimeOut()] is true exactly on
    the timer path and [isRAF()] is its negation.  [forceSetTimeOut] is
    the constructor's argument, [false] when it is omitted. *)
Theorem start_selects_path (w : World) (force : option bool) (win : gset string) (ttc : Z) :
  forceSetTimeOut (raf (new force win ttc)) = default false force /\
  exists w', start w = Some w' /\
    isRunning (raf w') = true /\
    (isSetTimeOut w' = true <->
     "requestAnimationFrame" ∉ window w \/ forceSetTimeOut (raf w) = true) /\
    isRAF w' = negb (isSetTimeOut w') /\
    (if isSetTimeOut w'
     then log w' = log w ++ [SetTimeout (next_id w) (Some LoopSetTimeout) 0] /\
          timers w' = <[next_id w := Some LoopSetTimeout]> (timers w) /\
          frames w' = frames w
     else log w' = log w ++ [RequestFrame (next_id w) (Some LoopRAF)] /\
          frames w' = <[next_id w := Some LoopRAF]> (frames w) /\
          timers w' = timers w).
Proof. split; [done | apply start_spec]. Qed.

(** *** The running loop *)

Lemma updates_app l1 l2 : updates (l1 ++ l2) = (updates l1 + updates l2)%nat.
Proof. unfold updates. by rewrite filter_app, length_app. Qed.

Lemma idle_passive : passive idle.
Proof. intros t [r win ts fs n ttc l]. by exists ttc. Qed.

Lemma pacing_passive : passive pacing.
Proof. intros t w. by eexists. Qed.

(** [start] leaves the scheduler ticking, provided the host had nothing
    pending. *)
Lemma start_ticking w :
  timers w = ∅ -> frames w = ∅ -> exists w', start w = Some w' /\ ticking w'.
Proof.
  intros Ht Hf.
  destruct (decide ("requestAnimationFrame" ∈ window w)) as [Hin|Hin];
    destruct (forceSetTimeOut (raf w)) eqn:Hforce.
  - eexists. split; [apply start_fallback; by right|].
    split; [done|]. exists (next_id w). simpl. by rewrite Ht, Hf, insert_empty.
  - eexists. split; [by apply start_preferred|].
    split; [done|]. exists (next_id w). simpl. by rewrite Ht, Hf, insert_empty.
  - eexists. split; [apply start_fallback; by left|].
    split; [done|]. exists (next_id w). simpl. by rewrite Ht, Hf, insert_empty.
  - eexists. split; [apply start_fallback; by left|].
    split; [done|]. exists (next_id w). simpl. by rewrite Ht, Hf, insert_empty.
Qed.

(** X10: the frame loop keeps exactly one request at the host.  While the
    driver keeps to itself (it returns normally and does not call into the
    scheduler), running the pending request invokes the driver once and
    leaves the scheduler running with exactly one new request, recorded in
    [_timeOutID]; on the timer path its delay is [game.time.timeToCall] as
    the driver has just left it. *)
Theorem frame_loop_keeps_one_request
    (update : Driver) (w : World) (id : nat) (rafTime : Q) (now : Z) :
  passive update -> ticking w -> _timeOutID (raf w) = Some id ->
  exists w', fire update rafTime now id w = Some w' /\
    ticking w' /\
    requests w' = 1%nat /\
    _timeOutID (raf w') = Some (next_id w) /\
    updates (log w') = S (updates (log w)) /\
    (isSetTimeOut w = true ->
     exists t, log w' = log w ++ [Update t; SetTimeout (next_id w) (Some LoopSetTimeout)
                                             (timeToCall w')]).
Proof.
  intros Hpas (Hrun & id' & Hid & Hpath) Hid'. rewrite Hid in Hid'. injection Hid' as ->.
  unfold fire, isSetTimeOut. destruct (_isSetTimeOut (raf w)) eqn:Hfb.
  - destruct Hpath as (Hloop & Ht & Hf).
    unfold fire_timer. rewrite Ht, lookup_singleton_eq. simpl.
    unfold updateSetTimeout.
    destruct (Hpas (Millis now)
                (record (Update (Millis now))
                   (with_timers (delete id {[id := Some LoopSetTimeout]}) w)))
      as [ttc ->].
    simpl. rewrite Hloop, delete_singleton_eq, insert_empty.
    eexists. split; [done|]. simpl.
    split; [|split; [|split; [|split]]].
    + split; [done|]. exists (next_id w). simpl. by rewrite Hfb.
    + unfold requests. simpl. by rewrite Hf, map_size_singleton, map_size_empty.
    + done.
    + rewrite <- app_assoc, updates_app. simpl. unfold updates at 2. simpl. lia.
    + intros _. exists (Millis now). by rewrite <- app_assoc.
  - destruct Hpath as (Hloop & Hf & Ht & Hwin).
    unfold fire_frame. rewrite Hf, lookup_singleton_eq. simpl.
    unfold updateRAF.
    destruct (Hpas (floor (Some rafTime))
                (record (Update (floor (Some rafTime)))
                   (with_frames (delete id {[id := Some LoopRAF]}) w)))
      as [ttc ->].
    simpl. unfold requestAnimationFrame. simpl.
    rewrite (decide_True _ _ Hwin), Hloop, delete_singleton_eq, insert_empty. simpl.
    eexists. split; [done|]. simpl.
    split; [|split; [|split; [|split]]].
    + split; [done|]. exists (next_id w). simpl. by rewrite Hfb.
    + unfold requests. simpl. by rewrite Ht, map_size_singleton, map_size_empty.
    + done.
    + rewrite <- app_assoc, updates_app. simpl. unfold updates at 2. simpl. lia.
    + done.
Qed.

Lemma frame_loop_keeps_one_request_witness :
  exists w', fire pacing (0 # 1) 1234 1 started_on_timers = Some w' /\
    requests w' = 1%nat /\ updates (log w') = 1%nat /\ timeToCall w' = 34.
Proof.
  destruct (frame_loop_keeps_one_request pacing started_on_timers 1 (0 # 1) 1234)
    as (w' & Hfire & _ & Hreq & _ & Hupd & Hlog).
  - exact pacing_passive.
  - split; [reflexivity|]. exists 1%nat. split; [reflexivity|]. vm_compute. done.
  - reflexivity.
  - exists w'. split; [exact Hfire|]. split; [exact Hreq|]. split; [exact Hupd|].
    vm_compute in Hfire. by injection Hfire as <-.
Defined.

(** X11: [stop()] called between two frames ends the loop.  On a ticking
    scheduler (on the timer path, or on the frame path of a host that has
    [cancelAnimationFrame]) it returns normally with [isRunning] false and
    nothing left at the host, so that no request the host could still run
    reaches the driver; and a later [start()] sets the loop ticking
    again. *)
Theorem stop_between_frames_ends_loop (w : World) :
  ticking w -> isSetTimeOut w = true \/ "cancelAnimationFrame" ∈ window w ->
  exists w', stop w = Some w' /\
    isRunning (raf w') = false /\
    requests w' = 0%nat /\
    (forall update rafTime now id, fire update rafTime now id w' = Some w') /\
    exists w'', start w' = Some w'' /\ ticking w''.
Proof.
  intros (Hrun & id & Hid & Hpath) Hcan. unfold isSetTimeOut in Hcan.
  assert (forall w', timers w' = ∅ -> frames w' = ∅ ->
            requests w' = 0%nat /\
            (forall update rafTime now id', fire update rafTime now id' w' = Some w') /\
            exists w'', start w' = Some w'' /\ ticking w'') as Hrest.
  { intros w' Ht Hf. split; [|split].
    - unfold requests. by rewrite Ht, Hf, map_size_empty.
    - intros update rafTime now id'. unfold fire, fire_timer, fire_frame.
      rewrite Ht, Hf, !lookup_empty. by destruct (_isSetTimeOut (raf w')).
    - by apply start_ticking. }
  unfold stop. destruct (_isSetTimeOut (raf w)) eqn:Hfb.
  - destruct Hpath as (_ & Ht & Hf). rewrite Hid. simpl.
    eexists. split; [done|]. split; [done|].
    apply Hrest; simpl; [by rewrite Ht, delete_singleton_eq | done].
  - destruct Hpath as (_ & Hf & Ht & _). destruct Hcan as [?|Hcan]; [done|].
    unfold cancelAnimationFrame. rewrite (decide_True _ _ Hcan), Hid. simpl.
    eexists. split; [done|]. split; [done|].
    apply Hrest; simpl; [done | by rewrite Hf, delete_singleton_eq].
Qed.

Lemma stop_between_frames_ends_loop_witness :
  exists w', stop started_on_frames = Some w' /\
    isRunning (raf w') = false /\ requests w' = 0%nat.
Proof.
  destruct (stop_between_frames_ends_loop started_on_frames)
    as (w' & Hstop & Hrun & Hreq & _).
  - split; [reflexivity|]. exists 1%nat. split; [reflexivity|].
    split; [reflexivity|]. split; [reflexivity|]. split; [reflexivity|].
    apply (bool_decide_unpack _). vm_compute. exact I.
  - right. apply (bool_decide_unpack _). vm_compute. exact I.
  - exists w'. split; [exact Hstop|]. split; [exact Hrun | exact Hreq].
Defined.

(** X12: on a host that has a frame request function but no
    [window.cancelAnimationFrame], [start()] takes the frame path and the
    [stop()] that follows throws instead of stopping.  The constructor's
    search leaves such a host behind when it finds a prefixed request
    function whose cancel function is not named
    [<prefix>CancelAnimationFrame]. *)
Theorem stop_throws_without_cancelAnimationFrame (w : World) :
  "requestAnimationFrame" ∈ window w -> forceSetTimeOut (raf w) = false ->
  "cancelAnimationFrame" ∉ window w ->
  exists w1, start w = Some w1 /\ isRAF w1 = true /\ stop w1 = None.
Proof.
  intros Hin Hforce Hcan. eexists. split; [by apply start_preferred|].
  split; [done|]. unfold stop, cancelAnimationFrame. simpl.
  by rewrite (decide_False _ _ Hcan).
Qed.

Lemma stop_throws_without_cancelAnimationFrame_witness :
  exists w1, start webkit_only = Some w1 /\ isRAF w1 = true /\ stop w1 = None.
Proof.
  apply (stop_throws_without_cancelAnimationFrame webkit_only).
  - apply (bool_decide_unpack _). vm_compute. exact I.
  - reflexivity.
  - apply (bool_decide_unpack _). vm_compute. exact I.
Defined.

End SchedulerFacts.

(* ===================================================================== *)
(** ** Properties of the operating-system probe *)
(* ===================================================================== *)

Section OSFacts.

Import Device.

Lemma flag_set k' d k :
  flag (set_flag k' d) k = bool_decide (k = k') || flag d k.
Proof.
  unfold flag, set_flag. simpl. case_bool_decide as E.
  - subst. by rewrite lookup_insert_eq.
  - by rewrite lookup_insert_ne.
Qed.

Lemma flag_clear k' d k :
  flag (clear_flag k' d) k = negb (bool_decide (k = k')) && flag d k.
Proof.
  unfold flag, clear_flag. simpl. case_bool_decide as E.
  - subst. by rewrite lookup_insert_eq.
  - by rewrite lookup_insert_ne.
Qed.

(** The chain sets one of its eight flags or none. *)
Lemma os_of_cases ua : os_of ua = None \/ exists k, k ∈ os_flags /\ os_of ua = Some k.
Proof.
  unfold os_of, os_flags.
  repeat case_match;
    first [ by left
          | right; eexists; split; [|done]; apply (bool_decide_unpack _); vm_compute; exact I ].
Qed.

(** The probe on real user agents. *)
Example _checkOS_kindle :
  filter (fun k => flag (_checkOS ua_kindle new_Device) k = true)
         (os_flags ++ ["windowsPhone"; "desktop"]) = ["kindle"].
Proof. vm_compute. reflexivity. Qed.

Example _checkOS_linux_chrome :
  filter (fun k => flag (_checkOS ua_linux_chrome new_Device) k = true)
         (os_flags ++ ["windowsPhone"; "desktop"]) = ["linux"; "desktop"].
Proof. vm_compute. reflexivity. Qed.

Example _checkOS_windows_phone :
  filter (fun k => flag (_checkOS ua_windows_phone new_Device) k = true)
         (os_flags ++ ["windowsPhone"; "desktop"]) = ["windows"; "windowsPhone"].
Proof. vm_compute. reflexivity. Qed.

(** X14: a user agent that matches [/Windows Phone/i] or [/IEMobile/i] is
    a Windows Phone whatever else it claims and whatever the device held
    before: [windowsPhone] and [windows] are set, and [android], [iOS],
    [macOS] and [desktop] are not. *)
Theorem windows_phone_overrides (ua : string) (d : Device) :
  is_windows_phone ua = true ->
  flag (_checkOS ua d) "windowsPhone" = true /\
  flag (_checkOS ua d) "windows" = true /\
  flag (_checkOS ua d) "android" = false /\
  flag (_checkOS ua d) "iOS" = false /\
  flag (_checkOS ua d) "macOS" = false /\
  flag (_checkOS ua d) "desktop" = false.
Proof.
  intros Hwp. unfold _checkOS. rewrite Hwp.
  set (d1 := match os_of ua with Some k => set_flag k d | None => d end).
  set (d2 := set_flag "windowsPhone" _).
  assert (flag d2 "windowsPhone" = true /\ flag d2 "windows" = true /\
          flag d2 "android" = false /\ flag d2 "iOS" = false /\ flag d2 "macOS" = false)
    as (Hwp2 & Hw2 & Ha2 & Hi2 & Hm2).
  { unfold d2. rewrite !flag_set, !flag_clear. simpl. done. }
  rewrite Hw2. simpl.
  rewrite (flag_set "desktop" d2 "windowsPhone"), Hwp2. simpl.
  rewrite !flag_clear, !flag_set, Hwp2, Hw2, Ha2, Hi2, Hm2. done.
Qed.

Lemma windows_phone_overrides_witness :
  flag (_checkOS ua_windows_phone new_Device) "windowsPhone" = true /\
  flag (_checkOS ua_windows_phone new_Device) "android" = false /\
  flag (_checkOS ua_windows_phone new_Device) "desktop" = false.
Proof.
  destruct (windows_phone_overrides ua_windows_phone new_Device)
    as (H1 & _ & H2 & _ & _ & H3); [vm_compute; reflexivity|].
  split; [exact H1|]. split; [exact H2 | exact H3].
Defined.

(** Closes one fully evaluated case of the probe. *)
Ltac solve_os :=
  split;
  [ intros H; vm_compute in H;
    first [ discriminate H
          | split; [ repeat constructor
                   | vm_compute; repeat first [ by left | right ] ] ]
  | intros H; first [ discriminate H | vm_compute; lia ] ].

(** X15: on a fresh device the probe never reports a hand-held system as a
    desktop: when [desktop] is set, one of [windows], [macOS], [linux],
    [chromeOS] is set and none of [vita], [kindle], [android], [iOS],
    [windowsPhone] is.  And unless the user agent is a Windows Phone, at
    most one of the eight flags of the chain is set: a user agent that
    names Android is not also [linux], one that names a Kindle not also
    [android]. *)
Theorem desktop_excludes_mobile (ua : string) :
  (flag (_checkOS ua new_Device) "desktop" = true ->
   Forall (fun k => flag (_checkOS ua new_Device) k = false) mobile_flags /\
   Exists (fun k => flag (_checkOS ua new_Device) k = true)
          ["windows"; "macOS"; "linux"; "chromeOS"]) /\
  (is_windows_phone ua = false ->
   (length (filter (fun k => flag (_checkOS ua new_Device) k = true) os_flags) <= 1)%nat).
Proof.
  unfold _checkOS.
  generalize (is_windows_phone ua) (contains "Silk" ua)
             (contains_ci "Windows NT" ua && contains_ci "Touch" ua).
  intros wp silk nt.
  destruct (os_of_cases ua) as [-> | (k & Hk & ->)].
  - destruct wp, silk, nt; solve_os.
  - unfold os_flags in Hk.
    repeat (apply elem_of_cons in Hk as [->|Hk]); try (by apply elem_of_nil in Hk);
      destruct wp, silk, nt; solve_os.
Qed.

End OSFacts.

(* ===================================================================== *)
(** ** Properties of the viewports and of the screen orientation *)
(* ===================================================================== *)

Section DOMFacts.

Import DOM.

(** X16: the viewport getters.  Whatever mode the [whenReady] callback
    chose, the layout viewport is the larger of the client and the inner
    measure, and the visual viewport lies between the inner measure and the
    layout viewport; in desktop mode the two viewports coincide; and on the
    page as it was when the callback ran, the visual viewport is the inner
    measure in either mode. *)
Theorem viewport_getters (d : Device.Device) (p0 p : Page) :
  layoutBounds_width (treatAsDesktop d p0) p = Z.max (clientWidth p) (innerWidth p) /\
  layoutBounds_height (treatAsDesktop d p0) p = Z.max (clientHeight p) (innerHeight p) /\
  innerWidth p <= visualBounds_width (treatAsDesktop d p0) p
               <= layoutBounds_width (treatAsDesktop d p0) p /\
  innerHeight p <= visualBounds_height (treatAsDesktop d p0) p
                <= layoutBounds_height (treatAsDesktop d p0) p /\
  (treatAsDesktop d p0 = true ->
   visualBounds_width true p = layoutBounds_width true p /\
   visualBounds_height true p = layoutBounds_height true p) /\
  visualBounds_width (treatAsDesktop d p0) p0 = innerWidth p0 /\
  visualBounds_height (treatAsDesktop d p0) p0 = innerHeight p0.
Proof.
  unfold treatAsDesktop, layoutBounds_width, layoutBounds_height,
    visualBounds_width, visualBounds_height.
  destruct (Device.flag d "desktop"); simpl;
    destruct (Z.leb_spec (clientWidth p0) (innerWidth p0));
    destruct (Z.leb_spec (clientHeight p0) (innerHeight p0)); simpl;
    destruct (Z.ltb_spec (clientWidth p) (innerWidth p));
    destruct (Z.ltb_spec (clientHeight p) (innerHeight p));
    repeat split; try lia; try done.
Qed.

(** The page with a scrollbar, read in both modes. *)
Example viewport_with_scrollbar :
  visualBounds_width true scrollbar_page = 1280 /\
  visualBounds_width false scrollbar_page = 1280 /\
  layoutBounds_width false scrollbar_page = 1280 /\
  documentBounds_height scrollbar_page = 2400.
Proof. repeat split. Qed.

(** X17: the screen orientation.  A Screen Orientation object with a string
    [type] decides alone, whatever fallback was asked for.  On a host
    without any orientation property the answer is always
    ['portrait-primary'] or ['landscape-primary']: with the ['screen']
    fallback it is portrait exactly when the screen is higher than wide,
    and without [matchMedia] and without a fallback it is portrait exactly
    when the visual viewport is higher than wide, so that a square counts
    as landscape. *)
Theorem screen_orientation_resolution
    (win : Window) (vw vh : Z) (primaryFallback : option string) (type : string) :
  (screen_orientation win = OObject (Some type) ->
   getScreenOrientation win vw vh primaryFallback = type) /\
  (screen_orientation win = OUndefined -> screen_mozOrientation win = OUndefined ->
   screen_msOrientation win = OUndefined ->
   (getScreenOrientation win vw vh primaryFallback = PORTRAIT \/
    getScreenOrientation win vw vh primaryFallback = LANDSCAPE) /\
   (getScreenOrientation win vw vh (Some "screen") = PORTRAIT <->
    screen_width win < screen_height win) /\
   (matchMedia win = None ->
    (getScreenOrientation win vw vh None = PORTRAIT <-> vw < vh) /\
    getScreenOrientation win vw vw None = LANDSCAPE)).
Proof.
  split.
  - intros H. unfold getScreenOrientation. by rewrite H.
  - intros H1 H2 H3. unfold getScreenOrientation. rewrite H1, H2, H3. simpl.
    split; [|split].
    + repeat case_match; auto.
    + destruct (Z.ltb_spec (screen_width win) (screen_height win));
        split; intros; try done; lia.
    + intros ->. rewrite Z.ltb_irrefl. split; [|done].
      destruct (Z.ltb_spec vw vh); split; intros; try done; lia.
Qed.

Lemma screen_orientation_resolution_witness :
  getScreenOrientation phone_window 360 640 (Some "screen") = "portrait-secondary" /\
  getScreenOrientation plain_window 1280 720 None = LANDSCAPE.
Proof.
  destruct (screen_orientation_resolution phone_window 360 640 (Some "screen")
              "portrait-secondary") as [Hapi _].
  destruct (screen_orientation_resolution plain_window 1280 720 None "") as [_ Hplain].
  split; [by apply Hapi|].
  destruct Hplain as (Hp & _ & _); [reflexivity..|].
  destruct Hp as [Hp|Hp]; [discriminate Hp | exact Hp].
Defined.

End DOMFacts.

(* ===================================================================== *)
(** ** Properties of the image smoothing switch *)
(* ===================================================================== *)

Section CanvasFacts.

Import Canvas.

Lemma smoothing_names_eq :
  smoothing_names =
  ["imageSmoothingEnabled"; "mozImageSmoothingEnabled"; "oImageSmoothingEnabled";
   "webkitImageSmoothingEnabled"; "msImageSmoothingEnabled"].
Proof. reflexivity. Qed.

(** The setter writes the first smoothing property the context has, and
    nothing when it has none. *)
Lemma set_first_spec (vs : list string) (context : gmap string bool) (value : bool) :
  (forall v, v ∈ vs -> context !! (v +:+ "mageSmoothingEnabled") = None) /\
    set_first vs context value = context \/
  exists pre v post,
    vs = pre ++ v :: post /\
    (forall u, u ∈ pre -> context !! (u +:+ "mageSmoothingEnabled") = None) /\
    is_Some (context !! (v +:+ "mageSmoothingEnabled")) /\
    set_first vs context value = <[v +:+ "mageSmoothingEnabled" := value]> context.
Proof.
  induction vs as [|v vs IH]; simpl.
  - left. split; [|done]. intros v Hv. by apply elem_of_nil in Hv.
  - case_decide as Hs.
    + right. exists [], v, vs. repeat split; try done.
      intros u Hu. by apply elem_of_nil in Hu.
    + apply eq_None_not_Some in Hs.
      destruct IH as [[Hnone Heq]|(pre & w & post & -> & Hpre & Hw & Heq)].
      * left. split; [|done]. intros u [->|Hu]%elem_of_cons; auto.
      * right. exists (v :: pre), w, post. repeat split; try done.
        intros u [->|Hu]%elem_of_cons; auto.
Qed.

Lemma or_else_true_l b : or_else (Some true) b = Some true.
Proof. done. Qed.

Lemma or_else_true_r a : or_else a (Some true) = Some true.
Proof. by destruct a as [[]|]. Qed.

Lemma or_else_true a b :
  or_else a b = Some true <-> a = Some true \/ b = Some true.
Proof.
  destruct a as [[]|]; simpl; split; auto; intros [H|H]; done.
Qed.

Ltac in_names := repeat first [ apply list_elem_of_here | apply list_elem_of_further ].

Lemma getSmoothingEnabled_true (context : gmap string bool) :
  getSmoothingEnabled context = Some true <->
  exists n, n ∈ smoothing_names /\ context !! n = Some true.
Proof.
  unfold getSmoothingEnabled. rewrite !or_else_true, smoothing_names_eq. split.
  - intros [[[[H|H]|H]|H]|H]; eexists; (split; [|exact H]); in_names.
  - intros (n & Hn & H).
    repeat (apply elem_of_cons in Hn as [->|Hn]); [tauto..|].
    by apply elem_of_nil in Hn.
Qed.

Lemma smoothing_name_of_vendor (pre post : list string) (v : string) :
  vendor = pre ++ v :: post -> v +:+ "mageSmoothingEnabled" ∈ smoothing_names.
Proof.
  intros E. unfold smoothing_names. rewrite E, fmap_app, fmap_cons.
  apply elem_of_app. right. apply list_elem_of_here.
Qed.

(** X18: switching image smoothing and reading it back.  The getter answers
    [true] exactly when one of the five smoothing properties is [true].  On
    a context with none of them the setter changes nothing and the getter
    answers [undefined].  On a context with exactly one of them the setter
    writes that one; switching on is read back as [true], but switching off
    is read back as [false] only through [msImageSmoothingEnabled], the last
    operand of the getter, and as [undefined] through the four others.  On a
    context with any of them, switching on is read back as [true]. *)
Theorem smoothing_set_then_get (context : gmap string bool) (value : bool) (s : string) :
  (getSmoothingEnabled context = Some true <->
   exists n, n ∈ smoothing_names /\ context !! n = Some true) /\
  ((forall n, n ∈ smoothing_names -> context !! n = None) ->
   setSmoothingEnabled context value = context /\ getSmoothingEnabled context = None) /\
  (s ∈ smoothing_names -> is_Some (context !! s) ->
   (forall n, n ∈ smoothing_names -> n <> s -> context !! n = None) ->
   setSmoothingEnabled context value = <[s := value]> context /\
   getSmoothingEnabled (setSmoothingEnabled context value) =
     if value then Some true
     else if decide (s = "msImageSmoothingEnabled") then Some false else None) /\
  ((exists n, n ∈ smoothing_names /\ is_Some (context !! n)) ->
   getSmoothingEnabled (setSmoothingEnabled context true) = Some true).
Proof.
  split; [apply getSmoothingEnabled_true|].
  split; [|split].
  - intros Hnone. split.
    + unfold setSmoothingEnabled.
      destruct (set_first_spec vendor context value)
        as [[_ Heq]|(pre & v & post & E & _ & Hv & _)]; [done|].
      rewrite (Hnone _ (smoothing_name_of_vendor _ _ _ E)) in Hv.
      by destruct Hv.
    + unfold getSmoothingEnabled. rewrite smoothing_names_eq in Hnone.
      rewrite !Hnone; [done|..]; in_names.
  - intros Hs Hsome Hothers.
    assert (setSmoothingEnabled context value = <[s := value]> context) as Hset.
    { unfold setSmoothingEnabled.
      destruct (set_first_spec vendor context value)
        as [[Hnone _]|(pre & v & post & E & _ & Hv & Heq)].
      - unfold smoothing_names in Hs. apply list_elem_of_fmap in Hs as (v & -> & Hv).
        rewrite (Hnone _ Hv) in Hsome. by destruct Hsome.
      - destruct (decide (v +:+ "mageSmoothingEnabled" = s)) as [<-|Hne]; [done|].
        rewrite (Hothers _ (smoothing_name_of_vendor _ _ _ E) Hne) in Hv.
        by destruct Hv. }
    split; [done|]. rewrite Hset.
    rewrite smoothing_names_eq in Hs, Hothers.
    unfold getSmoothingEnabled.
    repeat (apply elem_of_cons in Hs as [->|Hs]); [..|by apply elem_of_nil in Hs];
      rewrite lookup_insert_eq, ?lookup_insert_ne by done;
      rewrite ?Hothers by first [ done | in_names ];
      by destruct value.
  - intros (n & Hn & Hsome). apply getSmoothingEnabled_true.
    unfold setSmoothingEnabled.
    destruct (set_first_spec vendor context true)
      as [[Hnone _]|(pre & v & post & E & _ & _ & ->)].
    + unfold smoothing_names in Hn. apply list_elem_of_fmap in Hn as (v & -> & Hv).
      rewrite (Hnone _ Hv) in Hsome. by destruct Hsome.
    + exists (v +:+ "mageSmoothingEnabled"). split.
      * by eapply smoothing_name_of_vendor.
      * apply lookup_insert_eq.
Qed.

Lemma smoothing_set_then_get_witness :
  getSmoothingEnabled
    (setSmoothingEnabled {["webkitImageSmoothingEnabled" := true]} false) = None.
Proof.
  destruct (smoothing_set_then_get {["webkitImageSmoothingEnabled" := true]} false
              "webkitImageSmoothingEnabled") as (_ & _ & Hone & _).
  destruct Hone as [_ Hget].
  - apply (bool_decide_unpack _). vm_compute. exact I.
  - rewrite lookup_singleton_eq. by eexists.
  - intros n _ Hne. by rewrite lookup_singleton_ne.
  - exact Hget.
Defined.

(** Two smoothing properties at once: the setter switches the first one off,
    the getter still answers [true] through the second. *)
Example smoothing_stays_on_through_second_property :
  getSmoothingEnabled
    (setSmoothingEnabled
       (<["imageSmoothingEnabled" := true]> {["webkitImageSmoothingEnabled" := true]})
       false) = Some true.
Proof.
  apply getSmoothingEnabled_true. exists "webkitImageSmoothingEnabled". split.
  - apply (bool_decide_unpack _). vm_compute. exact I.
  - unfold setSmoothingEnabled. simpl.
    rewrite decide_True by (rewrite lookup_insert_eq; by eexists).
    rewrite lookup_insert_ne by done. rewrite lookup_insert_ne by done.
    apply lookup_singleton_eq.
Qed.

End CanvasFacts.

(* ===================================================================== *)
(** ** Properties of the fullscreen probe *)
(* ===================================================================== *)

Section FullscreenFacts.

Import Device.

(** The loop with [break] finds the first name the object has, and none when
    it has none of them. *)
Lemma first_present_spec (names : list string) (obj : gset string) :
  (first_present names obj = None /\ forall x, x ∈ names -> x ∉ obj) \/
  exists pre x post,
    names = pre ++ x :: post /\ (forall y, y ∈ pre -> y ∉ obj) /\ x ∈ obj /\
    first_present names obj = Some x.
Proof.
  induction names as [|n names IH]; simpl.
  - left. split; [done|]. intros x Hx. by apply elem_of_nil in Hx.
  - case_decide as Hn.
    + right. exists [], n, names. repeat split; try done.
      intros y Hy. by apply elem_of_nil in Hy.
    + destruct IH as [[-> Hnone]|(pre & x & post & -> & Hpre & Hx & ->)].
      * left. split; [done|]. intros x [->|Hx]%elem_of_cons; auto.
      * right. exists (n :: pre), x, post. repeat split; try done.
        intros y [->|Hy]%elem_of_cons; auto.
Qed.

(** X19: the fullscreen probe on a device that does not claim fullscreen
    yet.  The device claims fullscreen afterwards exactly when the element
    has one of the eight request names, and then [requestFullscreen] is the
    first of them the element has; otherwise both names are left as they
    were, whatever the document offers.  A changed [cancelFullscreen] is one
    of the eight cancel names, is on the document, and comes with the
    fullscreen claim.  The keyboard flag follows the host's
    [ALLOW_KEYBOARD_INPUT] alone. *)
Theorem fullscreen_probe_first_match
    (element document : gset string) (keyboard : bool) (d : Device)
    (n : FullscreenNames) :
  flag d "fullscreen" = false ->
  flag d "fullscreenKeyboard" = false ->
  (flag (_checkFullScreenSupport element document keyboard d n).1 "fullscreen" = true <->
   exists x, x ∈ fs /\ x ∈ element) /\
  (forall pre x post,
     fs = pre ++ x :: post -> x ∈ element -> (forall y, y ∈ pre -> y ∉ element) ->
     requestFullscreen (_checkFullScreenSupport element document keyboard d n).2 = x) /\
  ((forall x, x ∈ fs -> x ∉ element) ->
   (_checkFullScreenSupport element document keyboard d n).2 = n) /\
  (cancelFullscreen (_checkFullScreenSupport element document keyboard d n).2
     <> cancelFullscreen n ->
   flag (_checkFullScreenSupport element document keyboard d n).1 "fullscreen" = true /\
   cancelFullscreen (_checkFullScreenSupport element document keyboard d n).2 ∈ cfs /\
   cancelFullscreen (_checkFullScreenSupport element document keyboard d n).2 ∈ document) /\
  flag (_checkFullScreenSupport element document keyboard d n).1 "fullscreenKeyboard"
    = keyboard.
Proof.
  intros Hfs Hkb. unfold _checkFullScreenSupport.
  destruct (first_present_spec fs element)
    as [[-> Hnone]|(pre & x & post & E & Hpre & Hx & ->)].
  - rewrite Hfs. simpl.
    assert (forall k, flag (if keyboard then set_flag "fullscreenKeyboard" d else d) k
                      = (keyboard && bool_decide (k = "fullscreenKeyboard")) || flag d k)
      as Hflag.
    { intros k. destruct keyboard; [|done]. by rewrite flag_set_flag. }
    rewrite !Hflag, Hfs, Hkb.
    repeat split; try done.
    + by rewrite andb_false_r.
    + intros (x & Hx & Hel). by destruct (Hnone x Hx).
    + intros pre x post E Hx _. destruct (Hnone x); [|done].
      rewrite E. apply elem_of_app. right. apply list_elem_of_here.
    + by destruct keyboard.
  - assert (x ∈ fs) as Hin.
    { rewrite E. apply elem_of_app. right. apply list_elem_of_here. }
    assert (flag (set_flag "fullscreen" d) "fullscreen" = true) as Hset.
    { by rewrite flag_set_flag. }
    rewrite Hset.
    assert (forall k d', flag (if keyboard then set_flag "fullscreenKeyboard" d' else d') k
                      = (keyboard && bool_decide (k = "fullscreenKeyboard")) || flag d' k)
      as Hflag.
    { intros k d'. destruct keyboard; [|done]. by rewrite flag_set_flag. }
    assert (forall pre' x' post',
              fs = pre' ++ x' :: post' -> x' ∈ element ->
              (forall y, y ∈ pre' -> y ∉ element) -> x = x') as Huniq.
    { clear -E Hx Hpre. intros pre' x' post' E' Hx' Hpre'.
      rewrite E in E'. clear E. revert pre' E' Hpre'.
      induction pre as [|p pre IH]; intros [|p' pre'] E' Hpre'; simpl in E'.
      - congruence.
      - injection E' as -> _. destruct (Hpre' p'); [apply list_elem_of_here|done].
      - injection E' as -> _. destruct (Hpre x'); [apply list_elem_of_here|done].
      - injection E' as -> E'. eapply IH; [| exact E' |].
        + intros y Hy. apply Hpre. by apply list_elem_of_further.
        + intros y Hy. apply Hpre'. by apply list_elem_of_further. }
    destruct (first_present_spec cfs document)
      as [[-> _]|(cpre & c & cpost & Ec & _ & Hc & ->)];
      cbn [fst snd requestFullscreen cancelFullscreen];
      rewrite !Hflag, !flag_set_flag, Hkb.
    + split; [|split; [|split; [|split]]].
      * split; [intros _; by exists x | intros _; apply orb_true_r].
      * intros pre' x' post' E' Hx' Hpre'. by eapply Huniq.
      * intros Hnone. by destruct (Hnone x Hin).
      * done.
      * by destruct keyboard.
    + split; [|split; [|split; [|split]]].
      * split; [intros _; by exists x | intros _; apply orb_true_r].
      * intros pre' x' post' E' Hx' Hpre'. by eapply Huniq.
      * intros Hnone. by destruct (Hnone x Hin).
      * intros _. split; [apply orb_true_r|]. split; [|done].
        rewrite Ec. apply elem_of_app. right. apply list_elem_of_here.
      * by destruct keyboard.
Qed.

(** A browser with the WebKit names only. *)
Lemma fullscreen_probe_first_match_witness :
  requestFullscreen
    (_checkFullScreenSupport
       {["webkitRequestFullscreen"; "webkitRequestFullScreen"]}
       {["webkitCancelFullScreen"; "webkitExitFullscreen"]} true new_Device no_names).2
  = "webkitRequestFullscreen".
Proof.
  destruct (fullscreen_probe_first_match
              {["webkitRequestFullscreen"; "webkitRequestFullScreen"]}
              {["webkitCancelFullScreen"; "webkitExitFullscreen"]} true new_Device no_names)
    as (_ & Hfirst & _); [reflexivity..|].
  apply (Hfirst ["requestFullscreen"; "requestFullScreen"] "webkitRequestFullscreen"
           ["webkitRequestFullScreen"; "msRequestFullscreen"; "msRequestFullScreen";
            "mozRequestFullScreen"; "mozRequestFullscreen"]).
  - reflexivity.
  - apply (bool_decide_unpack _). vm_compute. exact I.
  - intros y Hy. apply (bool_decide_unpack _).
    repeat (apply elem_of_cons in Hy as [->|Hy]); [vm_compute; exact I..|].
    by apply elem_of_nil in Hy.
Defined.

End FullscreenFacts.
